(** * Student dropout app: orchestration logic of [student_dropout_smarter_app.py]

    A shallow embedding of the parts of the script that are written in the
    repository itself: target/feature resolution, the per-algorithm training
    loop with its session store, feature-importance extraction and alignment,
    the "save best model" handler, the prediction form and the risk banner.

    The machine-learning and data-frame libraries are external.  Their
    fit/predict results enter as section variables; the few data-frame
    operations the script calls ([drop], [fillna], [select_dtypes],
    [astype], [unique], [median], [sort_values]) are modelled on finite
    columns of scalars.  Finite numbers are rationals, the missing value is
    [SNaN] and an infinite float is [SInf]; columns of dates are outside
    the model. *)

From Stdlib Require Import String Ascii.
From Stdlib Require Import List ZArith QArith Qabs Bool Lia Floats.
From Stdlib Require Import Sorted Permutation Orders Mergesort DecimalString Lqa.
Import ListNotations.
Set Warnings "-inexact-float".

(** Outcome of a call that may raise: [Raise e] carries the exception. *)
Inductive result (E A : Type) : Type :=
| Ok (a : A)
| Raise (e : E).
Arguments Ok {E A} a.
Arguments Raise {E A} e.

(** Exceptions the script can meet, with the library's message where the
    script prints it. *)
Inductive exn : Type :=
| KeyError (key : string)
| AttributeError (msg : string)
| IndexError
| ValueError (msg : string)
| TypeError (msg : string)
| LibraryError (msg : string).

Definition bind {E A B} (r : result E A) (k : A -> result E B) : result E B :=
  match r with
  | Ok a => k a
  | Raise e => Raise e
  end.

Notation "x <- c ;; k" := (bind c (fun x => k))
  (at level 61, c at next level, right associativity).

(* ================================================================== *)
(** ** Data frames and target/feature resolution (lines 79-104) *)

Module Frame.

(** Storage types of a column ([Series.dtype]). *)
Inductive dtype : Set :=
| int8 | int16 | int32 | int64
| uint8 | uint16 | uint32 | uint64
| float16 | float32 | float64
| complex64 | complex128
| bool_ | object_ | category.

(** One cell.  [SNaN] is the missing value ([NaN] / [None]); [SInf] is
    an infinite float, which is not missing. *)
Inductive scalar : Type :=
| SInt (z : Z)
| SFloat (q : Q)
| SBool (b : bool)
| SStr (s : string)
| SNaN
| SInf (negative : bool).

Record column : Type := mkColumn {
  col_name : string;
  col_dtype : dtype;
  col_values : list scalar
}.

(** A frame keeps its row count (the index) next to its columns, so that a
    frame without columns still has rows. *)
Record DataFrame : Type := mkFrame {
  n_rows : nat;
  df_columns : list column
}.

Definition column_names (df : DataFrame) : list string :=
  map col_name (df_columns df).

(** Every column is as long as the index. *)
Definition well_formed (df : DataFrame) : Prop :=
  Forall (fun c => length (col_values c) = n_rows df) (df_columns df).

Definition isna (v : scalar) : bool :=
  match v with
  | SNaN => true
  | _ => false
  end.

Definition is_integer (dt : dtype) : bool :=
  match dt with
  | int8 | int16 | int32 | int64 | uint8 | uint16 | uint32 | uint64 => true
  | _ => false
  end.

Definition is_floating (dt : dtype) : bool :=
  match dt with
  | float16 | float32 | float64 | complex64 | complex128 => true
  | _ => false
  end.

(** Subtypes of [np.number]: integers, floats and complex numbers; booleans
    are not numbers. *)
Definition is_number (dt : dtype) : bool := is_integer dt || is_floating dt.

(** [include=['object','category']]. *)
Definition is_object_or_category (dt : dtype) : bool :=
  match dt with
  | object_ | category => true
  | _ => false
  end.

(** The number a cell holds, if it holds one. *)
Definition as_number (v : scalar) : option Q :=
  match v with
  | SInt z => Some (inject_Z z)
  | SFloat q => Some q
  | SBool b => Some (inject_Z (Z.b2z b))
  | SStr _ | SNaN | SInf _ => None
  end.

(** [df.drop(columns=[label])]: every column carrying the label goes; a
    label that names no column raises. *)
Definition drop (df : DataFrame) (label : string) : result exn DataFrame :=
  if existsb (fun c => String.eqb (col_name c) label) (df_columns df)
  then Ok {| n_rows := n_rows df;
             df_columns :=
               filter (fun c => negb (String.eqb (col_name c) label))
                      (df_columns df) |}
  else Raise (KeyError label).

(** The fill value as the column stores it: a float column holds it as a
    float, every other column holds the integer itself. *)
Definition fill_scalar (dt : dtype) (value : Z) (v : scalar) : scalar :=
  if isna v
  then (if is_floating dt then SFloat (inject_Z value) else SInt value)
  else v.

(** A categorical column takes a fill value only from its categories; the
    sentinel is not one of them. *)
Definition fill_column (value : Z) (c : column) : result exn column :=
  match col_dtype c with
  | category =>
      if existsb isna (col_values c)
      then Raise (TypeError "Cannot setitem on a Categorical with a new category")
      else Ok c
  | dt =>
      Ok {| col_name := col_name c;
            col_dtype := dt;
            col_values := map (fill_scalar dt value) (col_values c) |}
  end.

Fixpoint mapM {A B : Type} (f : A -> result exn B) (l : list A)
  : result exn (list B) :=
  match l with
  | [] => Ok []
  | a :: l' => b <- f a ;; bs <- mapM f l' ;; Ok (b :: bs)
  end.

(** [X.fillna(value)]. *)
Definition fillna (value : Z) (df : DataFrame) : result exn DataFrame :=
  cols <- mapM (fill_column value) (df_columns df) ;;
  Ok {| n_rows := n_rows df; df_columns := cols |}.

Definition sentinel : Z := (-999)%Z.

(** Lines 99-100: [X = df.drop(columns=[target_col]).copy()] and
    [X = X.fillna(-999)]. *)
Definition resolve_features (df : DataFrame) (target_col : string)
  : result exn DataFrame :=
  X <- drop df target_col ;; fillna sentinel X.

(** Lines 103-104. *)
Definition numeric_cols (X : DataFrame) : list string :=
  map col_name (filter (fun c => is_number (col_dtype c)) (df_columns X)).

Definition categorical_cols (X : DataFrame) : list string :=
  map col_name
      (filter (fun c => is_object_or_category (col_dtype c)) (df_columns X)).

(** No categorical-dtype column holds a missing value (true of every frame
    the loader builds: it never produces that dtype). *)
Definition fillable (df : DataFrame) : bool :=
  forallb (fun c => match col_dtype c with
                    | category => negb (existsb isna (col_values c))
                    | _ => true
                    end) (df_columns df).

(** What [fillna] does to one column. *)
Definition filled_from (value : Z) (c0 c : column) : Prop :=
  col_name c = col_name c0 /\
  col_dtype c = col_dtype c0 /\
  col_values c = map (fill_scalar (col_dtype c0) value) (col_values c0).

(** A small frame in the shape of the demo data, with gaps. *)
Definition sample_frame : DataFrame :=
  {| n_rows := 3;
     df_columns :=
       [ mkColumn "Age" int64 [SInt 17; SInt 21; SInt 19];
         mkColumn "CGPA" float64 [SFloat (7 # 1); SNaN; SFloat (17 # 2)];
         mkColumn "Financial_Status" object_ [SStr "low"; SNaN; SStr "high"];
         mkColumn "Dropout_Risk" int64 [SInt 0; SInt 1; SInt 0] ] |}.

(** C3 as the spec words it, at one feature column [c0] of the frame and
    its filled counterpart [c]: a gap of a numeric column became the number
    -999 and a gap of a categorical column became the string "-999". *)
Definition gaps_filled_as_stated (c0 c : column) : Prop :=
  forall i, nth_error (col_values c0) i = Some SNaN ->
    (is_number (col_dtype c0) = true ->
     exists v, nth_error (col_values c) i = Some v /\
               as_number v = Some (inject_Z sentinel)) /\
    (is_object_or_category (col_dtype c0) = true ->
     nth_error (col_values c) i = Some (SStr "-999")).

(* ------------------------------------------------------------------ *)

Lemma mapM_Forall2 {A B : Type} (f : A -> result exn B) l l' :
  mapM f l = Ok l' -> Forall2 (fun a b => f a = Ok b) l l'.
Proof.
  revert l'. induction l as [|a l IH]; intros l' H; simpl in H.
  - injection H as <-. constructor.
  - destruct (f a) as [b|e] eqn:Ea; simpl in H; [|discriminate].
    destruct (mapM f l) as [bs|e] eqn:El; simpl in H; [|discriminate].
    injection H as <-. constructor; auto.
Qed.

Lemma mapM_total {A B : Type} (f : A -> result exn B) l :
  Forall (fun a => exists b, f a = Ok b) l -> exists l', mapM f l = Ok l'.
Proof.
  induction 1 as [|a l [b Hb] _ [bs Hbs]]; simpl.
  - now exists [].
  - rewrite Hb, Hbs. simpl. now exists (b :: bs).
Qed.

Lemma fill_column_spec value c0 c :
  fill_column value c0 = Ok c -> filled_from value c0 c.
Proof.
  unfold fill_column, filled_from. destruct c0 as [nm dt vs]; simpl.
  destruct dt; try (intro H; injection H as <-; simpl; now repeat split).
  destruct (existsb isna vs) eqn:E; [discriminate|].
  intro H; injection H as <-; simpl. repeat split.
  induction vs as [|v vs IH]; simpl in *; [reflexivity|].
  apply orb_false_iff in E as [Ev Evs].
  unfold fill_scalar at 1. rewrite Ev. f_equal. auto.
Qed.

Lemma fillna_spec value X0 X :
  fillna value X0 = Ok X ->
  n_rows X = n_rows X0 /\
  Forall2 (filled_from value) (df_columns X0) (df_columns X).
Proof.
  unfold fillna. intro H.
  destruct (mapM (fill_column value) (df_columns X0)) as [cols|e] eqn:E;
    simpl in H; [|discriminate].
  injection H as <-. simpl. split; [reflexivity|].
  apply mapM_Forall2 in E.
  induction E; constructor; auto using fill_column_spec.
Qed.

Lemma fill_scalar_not_na dt value v : isna (fill_scalar dt value v) = false.
Proof.
  unfold fill_scalar. destruct (isna v) eqn:E; [|exact E].
  now destruct (is_floating dt).
Qed.

Lemma fill_scalar_number dt value v :
  isna v = true ->
  as_number (fill_scalar dt value v) = Some (inject_Z value).
Proof.
  unfold fill_scalar. intros ->. now destruct (is_floating dt).
Qed.

Lemma Forall2_map_fst_eq {A B C : Type} (R : A -> B -> Prop)
      (f : A -> C) (g : B -> C) l l' :
  (forall a b, R a b -> g b = f a) ->
  Forall2 R l l' -> map g l' = map f l.
Proof.
  intros HR H. induction H; simpl; [reflexivity|].
  f_equal; auto.
Qed.

Lemma names_filter label (cols : list column) :
  map col_name (filter (fun c => negb (String.eqb (col_name c) label)) cols)
  = filter (fun n => negb (String.eqb n label)) (map col_name cols).
Proof.
  induction cols as [|c cols IH]; simpl; [reflexivity|].
  destruct (String.eqb (col_name c) label); simpl; now rewrite IH.
Qed.

Lemma drop_ok df label :
  In label (column_names df) ->
  drop df label =
  Ok {| n_rows := n_rows df;
        df_columns := filter (fun c => negb (String.eqb (col_name c) label))
                             (df_columns df) |}.
Proof.
  intro Hin. unfold drop.
  replace (existsb _ (df_columns df)) with true; [reflexivity|].
  symmetry. apply existsb_exists.
  apply in_map_iff in Hin as [c [Hc Hin]].
  exists c. split; [assumption|]. rewrite Hc. apply String.eqb_refl.
Qed.

Lemma fill_column_total value c :
  (col_dtype c = category -> existsb isna (col_values c) = false) ->
  exists c', fill_column value c = Ok c'.
Proof.
  unfold fill_column. destruct (col_dtype c) eqn:E; intro H; eauto.
  rewrite (H eq_refl). eauto.
Qed.

Lemma fillna_total value df :
  fillable df = true -> exists X, fillna value df = Ok X.
Proof.
  unfold fillable, fillna. intro H.
  destruct (mapM_total (fill_column value) (df_columns df)) as [cols Hc].
  - rewrite forallb_forall in H. apply Forall_forall. intros c Hin.
    apply fill_column_total. intro Hcat.
    specialize (H c Hin). rewrite Hcat in H.
    now destruct (existsb isna (col_values c)).
  - rewrite Hc. simpl. eauto.
Qed.

Lemma fillable_filter (p : column -> bool) df :
  fillable df = true ->
  fillable {| n_rows := n_rows df; df_columns := filter p (df_columns df) |}
  = true.
Proof.
  unfold fillable; simpl. rewrite !forallb_forall.
  intros H c Hin. apply filter_In in Hin. now apply H.
Qed.

(** Under the preconditions of the resolver, resolution returns the frame
    of the kept columns, each filled in place. *)
Lemma resolve_features_returns df target_col :
  In target_col (column_names df) ->
  fillable df = true ->
  exists X,
    resolve_features df target_col = Ok X /\
    n_rows X = n_rows df /\
    Forall2 (filled_from sentinel)
            (filter (fun c => negb (String.eqb (col_name c) target_col))
                    (df_columns df))
            (df_columns X).
Proof.
  intros Hin Hfill. unfold resolve_features.
  rewrite (drop_ok _ _ Hin). simpl.
  destruct (fillna_total sentinel _ (fillable_filter
             (fun c => negb (String.eqb (col_name c) target_col)) df Hfill))
    as [X HX].
  exists X. split; [exact HX|].
  apply fillna_spec in HX. exact HX.
Qed.

(** Cell by cell: a filled column has no gap left, a gap became the
    number -999 and every other cell is as it was. *)
Lemma filled_from_cells value c0 c :
  filled_from value c0 c ->
  length (col_values c) = length (col_values c0) /\
  existsb isna (col_values c) = false /\
  forall i v0, nth_error (col_values c0) i = Some v0 ->
    exists v, nth_error (col_values c) i = Some v /\
              (isna v0 = true -> as_number v = Some (inject_Z value)) /\
              (isna v0 = false -> v = v0).
Proof.
  intros (_ & _ & Hv). rewrite Hv. repeat split.
  - apply length_map.
  - clear Hv. induction (col_values c0) as [|v vs IH]; simpl; [reflexivity|].
    now rewrite fill_scalar_not_na, IH.
  - intros i v0 Hi. exists (fill_scalar (col_dtype c0) value v0).
    rewrite nth_error_map, Hi. split; [reflexivity|]. split.
    + apply fill_scalar_number.
    + intro Hna. unfold fill_scalar. now rewrite Hna.
Qed.

(** C8: for a frame and a target among its columns, the feature table has
    exactly the frame's columns except the target, in the same order, the
    same number of rows, and each kept column keeps its name, storage type,
    length and every value that was present. *)
Theorem feature_table_is_frame_minus_target
        (df : DataFrame) (target_col : string)
        (Htarget : In target_col (column_names df))
        (Hwf : well_formed df)
        (Hfill : fillable df = true) :
  exists X,
    resolve_features df target_col = Ok X /\
    column_names X
      = filter (fun n => negb (String.eqb n target_col)) (column_names df) /\
    (forall n, In n (column_names X) <->
               In n (column_names df) /\ n <> target_col) /\
    n_rows X = n_rows df /\
    well_formed X /\
    Forall2 (fun c0 c =>
               col_name c = col_name c0 /\ col_dtype c = col_dtype c0 /\
               forall i v0, nth_error (col_values c0) i = Some v0 ->
                            isna v0 = false ->
                            nth_error (col_values c) i = Some v0)
            (filter (fun c => negb (String.eqb (col_name c) target_col))
                    (df_columns df))
            (df_columns X).
Proof.
  destruct (resolve_features_returns df target_col Htarget Hfill)
    as (X & HX & Hrows & Hcols).
  exists X. split; [exact HX|].
  assert (Hnames : column_names X
      = filter (fun n => negb (String.eqb n target_col)) (column_names df)).
  { unfold column_names. rewrite <- names_filter.
    apply (Forall2_map_fst_eq (filled_from sentinel)); [|exact Hcols].
    intros a b (Hn & _). exact Hn. }
  split; [exact Hnames|]. split.
  { intro n. rewrite Hnames, filter_In, negb_true_iff.
    destruct (String.eqb_spec n target_col); intuition congruence. }
  split; [exact Hrows|]. split.
  - unfold well_formed in *. rewrite Hrows.
    assert (Hsrc : Forall (fun c => length (col_values c) = n_rows df)
                     (filter (fun c => negb (String.eqb (col_name c) target_col))
                             (df_columns df))).
    { apply Forall_forall. intros c Hc. apply filter_In in Hc as [Hc _].
      rewrite Forall_forall in Hwf. now apply Hwf. }
    revert Hsrc. induction Hcols as [|c0 c l l' Hc _ IH]; intro Hsrc;
      constructor.
    + apply filled_from_cells in Hc as [Hlen _]. rewrite Hlen.
      now inversion Hsrc.
    + apply IH. now inversion Hsrc.
  - induction Hcols as [|c0 c l l' Hc _ IH]; constructor; [|exact IH].
    destruct Hc as (Hn & Hd & Hv). repeat split; try assumption.
    intros i v0 Hi Hna.
    destruct (filled_from_cells sentinel c0 c (conj Hn (conj Hd Hv)))
      as (_ & _ & Hcell).
    destruct (Hcell i v0 Hi) as (v & Hv' & _ & Hkeep).
    now rewrite Hv', (Hkeep Hna).
Qed.

Lemma feature_table_is_frame_minus_target_witness :
  exists X,
    resolve_features sample_frame "Dropout_Risk" = Ok X /\
    column_names X = ["Age"; "CGPA"; "Financial_Status"]%string /\
    n_rows X = 3%nat.
Proof.
  destruct (feature_table_is_frame_minus_target sample_frame "Dropout_Risk")
    as (X & HX & Hn & _ & Hr & _).
  - simpl. auto.
  - repeat constructor.
  - reflexivity.
  - exists X. repeat split; assumption.
Defined.

(** C3: on the sample frame the gap of the text column is filled with the
    integer -999 and not with its string form, so the column mixes text
    and an integer when it reaches the one-hot encoder; the claim asks for
    the string. *)
Lemma categorical_gap_is_not_a_string :
  exists X c0 c,
    resolve_features sample_frame "Dropout_Risk" = Ok X /\
    nth_error (df_columns sample_frame) 2 = Some c0 /\
    nth_error (df_columns X) 2 = Some c /\
    col_dtype c0 = object_ /\
    nth_error (col_values c0) 1 = Some SNaN /\
    nth_error (col_values c) 1 = Some (SInt (-999)) /\
    col_values c = [SStr "low"; SInt (-999); SStr "high"] /\
    In (col_name c) (categorical_cols X) /\
    ~ gaps_filled_as_stated c0 c.
Proof.
  eexists. eexists. eexists.
  split; [reflexivity|]. split; [reflexivity|]. split; [reflexivity|].
  split; [reflexivity|]. split; [reflexivity|]. split; [reflexivity|].
  split; [reflexivity|]. split; [now left|].
  intro H. destruct (H 1%nat eq_refl) as [_ Hs].
  specialize (Hs eq_refl). discriminate Hs.
Qed.

(** What the fill does on every frame: no feature column holds a missing
    value afterwards, every gap holds the number -999, and every other
    entry is unchanged. *)
Lemma sentinel_fill_leaves_no_gap
        (df : DataFrame) (target_col : string)
        (Htarget : In target_col (column_names df))
        (Hfill : fillable df = true) :
  exists X,
    resolve_features df target_col = Ok X /\
    Forall (fun c => existsb isna (col_values c) = false) (df_columns X) /\
    Forall2 (fun c0 c =>
               col_dtype c = col_dtype c0 /\
               forall i v0, nth_error (col_values c0) i = Some v0 ->
                 exists v, nth_error (col_values c) i = Some v /\
                   (isna v0 = true ->
                    as_number v = Some (inject_Z (-999))) /\
                   (isna v0 = false -> v = v0))
            (filter (fun c => negb (String.eqb (col_name c) target_col))
                    (df_columns df))
            (df_columns X).
Proof.
  destruct (resolve_features_returns df target_col Htarget Hfill)
    as (X & HX & _ & Hcols).
  exists X. split; [exact HX|]. split.
  - induction Hcols as [|c0 c l l' Hc _ IH]; constructor; [|exact IH].
    now apply filled_from_cells in Hc.
  - induction Hcols as [|c0 c l l' Hc _ IH]; constructor; [|exact IH].
    split; [apply Hc|].
    intros i v0 Hi.
    destruct (filled_from_cells _ _ _ Hc) as (_ & _ & Hcell).
    destruct (Hcell i v0 Hi) as (v & Hv & Hgap & Hkeep).
    exists v. split; [exact Hv|]. split; [|exact Hkeep].
    exact Hgap.
Qed.

Lemma sentinel_fill_leaves_no_gap_witness :
  exists X,
    resolve_features sample_frame "Dropout_Risk" = Ok X /\
    Forall (fun c => existsb isna (col_values c) = false) (df_columns X).
Proof.
  destruct (sentinel_fill_leaves_no_gap sample_frame "Dropout_Risk")
    as (X & HX & Hgap & _).
  - simpl. auto.
  - reflexivity.
  - exists X. split; assumption.
Defined.

End Frame.
(* ================================================================== *)
(** ** Reading the upload and pre-selecting the target (lines 44-84) *)

Module Selection.
Import Frame.

(** A column label as a reader delivers it: text, or a number (a workbook
    header cell that holds one). *)
Inductive header : Type :=
| Text (s : string)
| Number (z : Z).

Definition header_eqb (a b : header) : bool :=
  match a, b with
  | Text x, Text y => String.eqb x y
  | Number x, Number y => Z.eqb x y
  | _, _ => false
  end.

(** The labels of a frame of the model, which are text. *)
Definition headers (df : DataFrame) : list header :=
  map Text (column_names df).

Definition lower_ascii (c : ascii) : ascii :=
  let n := nat_of_ascii c in
  if Nat.leb 65 n && Nat.leb n 90 then ascii_of_nat (n + 32) else c.

(** The UTF-8 bytes of the two characters outside ASCII whose lower-case
    form contains an ASCII letter: the Kelvin sign (to "k") and the
    capital I with a dot (to "i" and a combining dot). *)
Definition is_kelvin (a b c : ascii) : bool :=
  Nat.eqb (nat_of_ascii a) 226 && Nat.eqb (nat_of_ascii b) 132
  && Nat.eqb (nat_of_ascii c) 170.

Definition is_dotted_I (a b : ascii) : bool :=
  Nat.eqb (nat_of_ascii a) 196 && Nat.eqb (nat_of_ascii b) 176.

(** [str.lower()] on UTF-8 text, as far as a test against ASCII text can
    see it: ASCII capitals and the two characters above are mapped; the
    bytes of any other character are kept (its lower-case form has no
    ASCII letter either). *)
Fixpoint lower (s : string) : string :=
  match s with
  | EmptyString => EmptyString
  | String a s1 =>
      match s1 with
      | String b s2 =>
          if is_dotted_I a b
          then String "i" (String (ascii_of_nat 204)
                                  (String (ascii_of_nat 135) (lower s2)))
          else
            match s2 with
            | String c s3 =>
                if is_kelvin a b c then String "k" (lower s3)
                else String (lower_ascii a) (lower s1)
            | EmptyString => String (lower_ascii a) (lower s1)
            end
      | EmptyString => String (lower_ascii a) (lower s1)
      end
  end.

(** [s.endswith(suffix)]: some tail of [s] is the suffix. *)
Fixpoint endswith (s suffix : string) : bool :=
  String.eqb s suffix ||
  match s with
  | EmptyString => false
  | String _ s' => endswith s' suffix
  end.

(** [sub in s]: [sub] starts at some position of [s]. *)
Fixpoint contains (sub s : string) : bool :=
  String.prefix sub s ||
  match s with
  | EmptyString => false
  | String _ s' => contains sub s'
  end.

(** The two readers of [load_df]. *)
Inductive reader : Set := ReadCsv | ReadExcel.

(** Lines 46-53: no upload gives no frame; the name decides the reader. *)
Definition load_df_reader (uploaded : option string) : option reader :=
  match uploaded with
  | None => None
  | Some name =>
      if endswith (lower name) ".csv" then Some ReadCsv else Some ReadExcel
  end.

(** The test of line 79 on one text label. *)
Definition mentions_target (c : string) : bool :=
  contains "drop" (lower c) || contains "risk" (lower c)
  || contains "out" (lower c).

(** Line 79: the list comprehension calls [c.lower()] on every label in
    order, so a label that is no text raises. *)
Fixpoint possible_targets (cols : list header) : result exn (list header) :=
  match cols with
  | [] => Ok []
  | Number _ :: _ =>
      Raise (AttributeError "'int' object has no attribute 'lower'")
  | Text c :: rest =>
      if mentions_target c
      then ts <- possible_targets rest ;; Ok (Text c :: ts)
      else possible_targets rest
  end.

(** Line 80. *)
Definition default_target (cols : list header) : result exn (option header) :=
  ts <- possible_targets cols ;; Ok (hd_error ts).

(** [l.index(x)]: the first position of [x], or [ValueError]. *)
Fixpoint list_index (x : header) (l : list header) : result exn nat :=
  match l with
  | [] => Raise (ValueError "value is not in list")
  | y :: rest =>
      if header_eqb y x then Ok 0%nat
      else i <- list_index x rest ;; Ok (S i)
  end.

(** Line 81: the options of the selectbox and the position it opens on. *)
Definition target_options (cols : list header) : list (option header) :=
  None :: map Some cols.

Definition target_index (cols : list header) : result exn nat :=
  t <- default_target cols ;;
  match t with
  | None => Ok 0%nat
  | Some c => i <- list_index c cols ;; Ok (i + 1)%nat
  end.

(** The Kelvin sign in UTF-8. *)
Definition kelvin : string :=
  String (ascii_of_nat 226) (String (ascii_of_nat 132)
         (String (ascii_of_nat 170) EmptyString)).

(* ------------------------------------------------------------------ *)

Definition ascii_head (s : string) : Prop :=
  match s with
  | EmptyString => True
  | String c _ => (nat_of_ascii c < 128)%nat
  end.

Lemma is_kelvin_bytes a b c :
  is_kelvin a b c = true ->
  nat_of_ascii a = 226%nat /\ nat_of_ascii b = 132%nat /\
  nat_of_ascii c = 170%nat.
Proof.
  unfold is_kelvin. rewrite !andb_true_iff, !Nat.eqb_eq. tauto.
Qed.

Lemma is_dotted_I_bytes a b :
  is_dotted_I a b = true ->
  nat_of_ascii a = 196%nat /\ nat_of_ascii b = 176%nat.
Proof.
  unfold is_dotted_I. rewrite andb_true_iff, !Nat.eqb_eq. tauto.
Qed.

Lemma app_length a b :
  String.length (a ++ b) = (String.length a + String.length b)%nat.
Proof. induction a as [|c a IH]; simpl; [reflexivity|now rewrite IH]. Qed.

Lemma lower_cons a s1 :
  lower (String a s1)
  = match s1 with
    | String b s2 =>
        if is_dotted_I a b
        then String "i" (String (ascii_of_nat 204)
                                (String (ascii_of_nat 135) (lower s2)))
        else
          match s2 with
          | String c s3 =>
              if is_kelvin a b c then String "k" (lower s3)
              else String (lower_ascii a) (lower s1)
          | EmptyString => String (lower_ascii a) (lower s1)
          end
    | EmptyString => String (lower_ascii a) (lower s1)
    end.
Proof. destruct s1; reflexivity. Qed.

(** Lower-casing a text that continues with an ASCII character ends with
    the lower-cased continuation. *)
Lemma lower_app_tail (ext : string) :
  ascii_head ext ->
  forall n stem, (String.length stem <= n)%nat ->
    exists t, lower (stem ++ ext) = (t ++ lower ext)%string.
Proof.
  intros Hext n. induction n as [|n IH]; intros stem Hlen.
  - destruct stem; [|simpl in Hlen; lia]. now exists EmptyString.
  - destruct stem as [|a s1]; [now exists EmptyString|].
    cbn [String.length] in Hlen. cbn [append]. rewrite lower_cons.
    destruct s1 as [|b s2]; cbn [append].
    + (* one character before the continuation *)
      destruct ext as [|x e2].
      * now exists (String (lower_ascii a) EmptyString).
      * cbn [ascii_head] in Hext.
        destruct (is_dotted_I a x) eqn:Ed.
        { apply is_dotted_I_bytes in Ed. lia. }
        destruct e2 as [|y e3].
        -- now exists (String (lower_ascii a) EmptyString).
        -- destruct (is_kelvin a x y) eqn:Ek.
           { apply is_kelvin_bytes in Ek. lia. }
           now exists (String (lower_ascii a) EmptyString).
    + cbn [String.length] in Hlen.
      destruct (IH (String b s2) ltac:(simpl; lia)) as [t1 Ht1].
      cbn [append] in Ht1.
      destruct (is_dotted_I a b) eqn:Ed.
      * destruct (IH s2 ltac:(lia)) as [t Ht]. rewrite Ht.
        now exists (String "i" (String (ascii_of_nat 204)
                                       (String (ascii_of_nat 135) t))).
      * destruct s2 as [|c s3]; cbn [append] in *.
        -- (* two characters before the continuation *)
           destruct ext as [|x e2].
           ++ rewrite Ht1. now exists (String (lower_ascii a) t1).
           ++ cbn [ascii_head] in Hext.
              destruct (is_kelvin a b x) eqn:Ek.
              { apply is_kelvin_bytes in Ek. lia. }
              rewrite Ht1. now exists (String (lower_ascii a) t1).
        -- destruct (is_kelvin a b c) eqn:Ek.
           ++ cbn [String.length] in Hlen.
              destruct (IH s3 ltac:(lia)) as [t Ht]. rewrite Ht.
              now exists (String "k" t).
           ++ rewrite Ht1. now exists (String (lower_ascii a) t1).
Qed.

Lemma lower_ascii_head ext c rest :
  lower ext = String c rest -> (nat_of_ascii c < 128)%nat ->
  Ascii.eqb c "k" = false -> Ascii.eqb c "i" = false ->
  ascii_head ext.
Proof.
  destruct ext as [|a s1]; [discriminate|]. cbn [lower ascii_head].
  assert (Hla : forall a, (nat_of_ascii (lower_ascii a) < 128)%nat ->
                          (nat_of_ascii a < 128)%nat).
  { intros x. unfold lower_ascii.
    destruct (Nat.leb 65 (nat_of_ascii x) && Nat.leb (nat_of_ascii x) 90)
      eqn:E; [|auto].
    apply andb_true_iff in E as [_ E]. apply Nat.leb_le in E. lia. }
  destruct s1 as [|b s2].
  - intros H Hc _ _. injection H as <- _. auto.
  - destruct (is_dotted_I a b).
    + intros H _ _ Hi. injection H as <- _. discriminate Hi.
    + destruct s2 as [|c' s3].
      * intros H Hc _ _. injection H as <- _. auto.
      * destruct (is_kelvin a b c').
        -- intros H _ Hk _. injection H as <- _. discriminate Hk.
        -- intros H Hc _ _. injection H as <- _. auto.
Qed.

Lemma eqb_length_neq a b :
  String.length a <> String.length b -> String.eqb a b = false.
Proof.
  intro H. apply String.eqb_neq. intros ->. now apply H.
Qed.

Lemma endswith_short t suffix :
  (String.length t < String.length suffix)%nat -> endswith t suffix = false.
Proof.
  induction t as [|d t IHt]; cbn [endswith]; intro Hlt.
  - rewrite eqb_length_neq by lia. reflexivity.
  - rewrite eqb_length_neq by lia. cbn [String.length] in Hlt.
    apply IHt. lia.
Qed.

(** With a tail as long as the suffix, only that tail is compared. *)
Lemma endswith_tail a b suffix :
  String.length b = String.length suffix ->
  endswith (a ++ b) suffix = String.eqb b suffix.
Proof.
  intro Hlen. induction a as [|c a IH].
  - destruct b as [|c b]; cbn [append endswith].
    + apply orb_false_r.
    + cbn [String.length] in Hlen.
      rewrite (endswith_short b suffix) by lia. apply orb_false_r.
  - cbn [append endswith]. rewrite eqb_length_neq; [exact IH|].
    cbn [String.length]. rewrite app_length. lia.
Qed.

Lemma app_assoc_string (a b c : string) :
  (a ++ (b ++ c))%string = ((a ++ b) ++ c)%string.
Proof. induction a as [|x a IH]; simpl; [reflexivity|now rewrite IH]. Qed.

(** X12: the reader follows the extension whatever its letter case: a
    name whose extension lower-cases to ".csv" is read as CSV, and a name
    ending in ".xlsx" or ".xls" is read as a workbook. *)
Theorem reader_follows_extension (stem ext : string) :
  (lower ext = ".csv"%string ->
   load_df_reader (Some (stem ++ ext)%string) = Some ReadCsv) /\
  (lower ext = ".xlsx"%string \/ lower ext = ".xls"%string ->
   load_df_reader (Some (stem ++ ext)%string) = Some ReadExcel) /\
  load_df_reader None = None.
Proof.
  unfold load_df_reader.
  assert (Htail : forall rest,
            lower ext = String "." rest ->
            exists t, lower (stem ++ ext) = (t ++ String "." rest)%string).
  { intros rest H.
    assert (Hdot : (nat_of_ascii "." < 128)%nat)
      by (apply Nat.ltb_lt; reflexivity).
    destruct (lower_app_tail ext
                (lower_ascii_head ext "." rest H Hdot eq_refl eq_refl)
                (String.length stem) stem (Nat.le_refl _)) as [t Ht].
    exists t. now rewrite Ht, H. }
  repeat split.
  - intro H. destruct (Htail _ H) as [t ->].
    rewrite endswith_tail by reflexivity. reflexivity.
  - intros [H|H]; destruct (Htail _ H) as [t ->].
    + change (t ++ ".xlsx")%string with (t ++ ("." ++ "xlsx"))%string.
      rewrite app_assoc_string, endswith_tail by reflexivity. reflexivity.
    + rewrite endswith_tail by reflexivity. reflexivity.
Qed.

Example reader_examples :
  load_df_reader (Some "Students.CSV"%string) = Some ReadCsv /\
  load_df_reader (Some "cohort.2024.xlsx"%string) = Some ReadExcel /\
  load_df_reader (Some "csv"%string) = Some ReadExcel.
Proof. repeat split. Qed.

Lemma prefix_spec sub s :
  String.prefix sub s = true <-> exists post, s = (sub ++ post)%string.
Proof.
  revert sub. induction s as [|b s IH]; intros [|a sub]; simpl.
  - split; [intros _; now exists EmptyString|reflexivity].
  - split; [discriminate|intros [post H]; discriminate H].
  - split; [intros _; now exists (String b s)|reflexivity].
  - destruct (ascii_dec a b) as [->|Hne].
    + rewrite IH. split; intros [post H]; exists post; congruence.
    + split; [discriminate|]. intros [post H]. congruence.
Qed.

Lemma contains_spec sub s :
  contains sub s = true <->
  exists pre post, s = (pre ++ sub ++ post)%string.
Proof.
  induction s as [|c s IH]; cbn [contains].
  - rewrite orb_false_r, prefix_spec. split.
    + intros [post H]. now exists EmptyString, post.
    + intros (pre & post & H). destruct pre; [now exists post|discriminate].
  - rewrite orb_true_iff, prefix_spec, IH. split.
    + intros [[post H]|(pre & post & H)].
      * now exists EmptyString, post.
      * exists (String c pre), post. simpl. now rewrite H.
    + intros (pre & post & H). destruct pre as [|x pre].
      * left. now exists post.
      * right. simpl in H. injection H as _ H. now exists pre, post.
Qed.

Lemma possible_targets_text names :
  possible_targets (map Text names)
  = Ok (map Text (filter mentions_target names)).
Proof.
  induction names as [|c names IH]; simpl; [reflexivity|].
  rewrite IH. now destruct (mentions_target c).
Qed.

Lemma possible_targets_number cols :
  (exists z, In (Number z) cols) ->
  exists msg, possible_targets cols = Raise (AttributeError msg).
Proof.
  intros [z Hin]. induction cols as [|[c|z'] cols IH]; simpl.
  - destruct Hin.
  - destruct Hin as [H|Hin]; [discriminate|].
    destruct (IH Hin) as [msg ->].
    destruct (mentions_target c); simpl; eauto.
  - eauto.
Qed.

Lemma first_match_split (p : string -> bool) l t :
  hd_error (filter p l) = Some t ->
  p t = true /\
  exists l1 l2, l = l1 ++ t :: l2 /\ Forall (fun c => p c = false) l1.
Proof.
  induction l as [|x l IH]; simpl; [discriminate|].
  destruct (p x) eqn:E; simpl.
  - intro H. injection H as <-. split; [exact E|]. now exists [], l.
  - intro H. destruct (IH H) as (Ht & l1 & l2 & -> & Hl1).
    split; [exact Ht|]. exists (x :: l1), l2. split; [reflexivity|].
    now constructor.
Qed.

Lemma list_index_first l1 t l2 :
  ~ In t l1 ->
  list_index (Text t) (map Text (l1 ++ t :: l2)) = Ok (length l1).
Proof.
  induction l1 as [|x l1 IH]; simpl; intro H.
  - now rewrite String.eqb_refl.
  - destruct (String.eqb_spec x t) as [->|_]; [tauto|].
    rewrite IH by tauto. reflexivity.
Qed.

(** X1: a label that is no text makes the scan for a target raise
    [AttributeError].  On text labels the scan looks for "drop", "risk" or
    "out" in the lower-cased label; the target selectbox opens on the
    first column that has one, and on the empty choice when there is none;
    the position is then computed without an exception and lies within
    the options, and dropping the pre-selected column never raises
    [KeyError]. *)
Theorem preselected_target (df : DataFrame) :
  (forall cols, (exists z, In (Number z) cols) ->
     exists msg, target_index cols = Raise (AttributeError msg)) /\
  (forall c, mentions_target c = true <->
     exists w pre post,
       In w ["drop"; "risk"; "out"]%string /\
       lower c = (pre ++ w ++ post)%string) /\
  exists idx t,
    default_target (headers df) = Ok t /\
    target_index (headers df) = Ok idx /\
    (idx < length (target_options (headers df)))%nat /\
    nth_error (target_options (headers df)) idx = Some t /\
    (forall c, t = Some c ->
       exists name l1 l2,
         c = Text name /\
         mentions_target name = true /\
         (exists X, drop df name = Ok X) /\
         column_names df = l1 ++ name :: l2 /\
         Forall (fun c => mentions_target c = false) l1 /\
         idx = S (length l1)) /\
    (t = None <->
     Forall (fun c => mentions_target c = false) (column_names df)).
Proof.
  split; [|split].
  - intros cols Hnum. unfold target_index, default_target.
    destruct (possible_targets_number cols Hnum) as [msg ->]. simpl. eauto.
  - intro c. unfold mentions_target.
    rewrite !orb_true_iff, !contains_spec. split.
    + intros [[(pre & post & H)|(pre & post & H)]|(pre & post & H)];
        [exists "drop"%string|exists "risk"%string|exists "out"%string];
        exists pre, post; simpl; auto.
    + intros (w & pre & post & [<-|[<-|[<-|[]]]] & H); eauto.
  - unfold target_index, default_target, headers, target_options.
    rewrite possible_targets_text. cbn [bind].
    destruct (hd_error (filter mentions_target (column_names df)))
      as [t|] eqn:E.
    + destruct (first_match_split _ _ _ E) as (Ht & l1 & l2 & Hcols & Hl1).
      assert (Hnot : ~ In t l1).
      { intro Hin. rewrite Forall_forall in Hl1. rewrite (Hl1 t Hin) in Ht.
        discriminate Ht. }
      exists (S (length l1)), (Some (Text t)).
      assert (Hhd : hd_error (map Text (filter mentions_target (column_names df)))
                    = Some (Text t)).
      { destruct (filter mentions_target (column_names df)); [discriminate|].
        simpl in *. congruence. }
      rewrite Hhd. split; [reflexivity|].
      rewrite Hcols, (list_index_first _ _ _ Hnot). simpl.
      split; [f_equal; lia|]. split.
      { rewrite !length_map, length_app. simpl. lia. }
      split.
      { rewrite !map_app. simpl.
        rewrite nth_error_app2 by (rewrite !length_map; lia).
        now rewrite !length_map, Nat.sub_diag. }
      split.
      * intros c Hc. injection Hc as <-. exists t, l1, l2.
        split; [reflexivity|]. split; [exact Ht|]. split.
        -- rewrite drop_ok; [eauto|]. rewrite Hcols.
           apply in_or_app. right. now left.
        -- auto.
      * split; [discriminate|]. intro Hall.
        rewrite Forall_forall in Hall.
        rewrite Hall in Ht; [discriminate|].
        apply in_or_app. right. now left.
    + exists 0%nat, None.
      assert (Hhd : hd_error (map Text (filter mentions_target (column_names df)))
                    = None).
      { now destruct (filter mentions_target (column_names df)). }
      rewrite Hhd. simpl. split; [reflexivity|]. split; [reflexivity|].
      split; [lia|]. split; [reflexivity|]. split; [discriminate|].
      split; [intros _|reflexivity]. clear Hhd.
      induction (column_names df) as [|x l IH]; [constructor|].
      simpl in E. destruct (mentions_target x) eqn:Ex; [discriminate|].
      constructor; auto.
Qed.

Example sample_preselection :
  default_target (headers sample_frame) = Ok (Some (Text "Dropout_Risk")) /\
  target_index (headers sample_frame) = Ok 4%nat /\
  target_index [Text "Age"; Number 2024; Text "Dropout"]
  = Raise (AttributeError "'int' object has no attribute 'lower'").
Proof. repeat split. Qed.

Example mentions_examples :
  mentions_target "DROPPED" = true /\
  mentions_target "At_RISK" = true /\
  mentions_target "Outcome" = true /\
  mentions_target ("RIS" ++ kelvin) = true /\
  mentions_target "Age" = false /\
  mentions_target "Drp_rsk_ot" = false /\
  lower "Hours_Spent_on_LMS" = "hours_spent_on_lms"%string.
Proof. repeat split. Qed.

End Selection.
(* ================================================================== *)
(** ** Column kinds, the preprocessor and the split (lines 103-140) *)

Module Preprocess.
Import Frame.

(** The two entries the script may append to [transformers]. *)
Inductive transformer : Type :=
| NumScaler (cols : list string)
| CatOneHot (cols : list string).

(** Lines 131-135. *)
Definition transformers (numeric categorical : list string)
  : list transformer :=
  (match numeric with
   | [] => []
   | _ :: _ => [NumScaler numeric]
   end)
  ++
  (match categorical with
   | [] => []
   | _ :: _ => [CatOneHot categorical]
   end).

(** Line 137: [ColumnTransformer(transformers) if transformers else None]. *)
Definition preprocessor (numeric categorical : list string)
  : option (list transformer) :=
  match transformers numeric categorical with
  | [] => None
  | ts => Some ts
  end.

(** A column of neither kind: not a number, not an object, not a
    category. *)
Definition unlisted (dt : dtype) : bool :=
  negb (is_number dt) && negb (is_object_or_category dt).

(** Line 140: [stratify = y if len(set(y)) > 1 else None]. *)
Definition stratify_arg (y : list Z) : option (list Z) :=
  if Nat.ltb 1 (length (nodup Z.eq_dec y)) then Some y else None.

(** A frame with a flag column. *)
Definition flagged_frame : DataFrame :=
  {| n_rows := 2;
     df_columns :=
       [ mkColumn "Age" int64 [SInt 17; SInt 21];
         mkColumn "Scholarship" bool_ [SBool true; SBool false];
         mkColumn "Financial_Status" object_ [SStr "low"; SNaN];
         mkColumn "Dropout_Risk" int64 [SInt 0; SInt 1] ] |}.

(* ------------------------------------------------------------------ *)

Lemma in_kind_cols (p : dtype -> bool) (cols : list column) n :
  In n (map col_name (filter (fun c => p (col_dtype c)) cols)) <->
  exists c, In c cols /\ col_name c = n /\ p (col_dtype c) = true.
Proof.
  rewrite in_map_iff. split.
  - intros (c & Hn & Hc). apply filter_In in Hc as [Hc Hp]. eauto.
  - intros (c & Hc & Hn & Hp). exists c. rewrite filter_In. auto.
Qed.

Lemma same_name_same_column (cols : list column) a b :
  NoDup (map col_name cols) -> In a cols -> In b cols ->
  col_name a = col_name b -> a = b.
Proof.
  induction cols as [|c cols IH]; simpl; [tauto|].
  intros Hnd [->|Ha] [->|Hb] Heq; inversion Hnd as [|? ? Hc Hnd']; subst.
  - reflexivity.
  - exfalso. apply Hc. rewrite Heq. now apply in_map.
  - exfalso. apply Hc. rewrite <- Heq. now apply in_map.
  - auto.
Qed.

Lemma kinds_exclusive dt :
  is_number dt = true -> is_object_or_category dt = false.
Proof. destruct dt; simpl; intro H; try reflexivity; discriminate H. Qed.

Lemma kind_cols_empty (p : dtype -> bool) (cols : list column) :
  (forall c, In c cols -> p (col_dtype c) = false) ->
  map col_name (filter (fun c => p (col_dtype c)) cols) = [].
Proof.
  induction cols as [|c cols IH]; simpl; intro Hp; [reflexivity|].
  rewrite (Hp c) by now left. apply IH. intros c' Hc'. apply Hp. now right.
Qed.

(** X2: with distinct column names no column is both numeric and
    categorical; a column is listed as numeric exactly when its storage
    type is a number and as categorical exactly when it is object or
    category, so a column of another type (a boolean flag) is handed to
    neither transformer; no preprocessor is built exactly when every
    column is of such a type. *)
Theorem column_kinds (X : DataFrame)
        (Hnames : NoDup (column_names X)) :
  (forall n, In n (numeric_cols X) -> ~ In n (categorical_cols X)) /\
  (forall c, In c (df_columns X) ->
     (In (col_name c) (numeric_cols X) <-> is_number (col_dtype c) = true) /\
     (In (col_name c) (categorical_cols X) <->
      is_object_or_category (col_dtype c) = true) /\
     (unlisted (col_dtype c) = true ->
      ~ In (col_name c) (numeric_cols X ++ categorical_cols X))) /\
  (preprocessor (numeric_cols X) (categorical_cols X) = None <->
   forall c, In c (df_columns X) -> unlisted (col_dtype c) = true).
Proof.
  unfold numeric_cols, categorical_cols, column_names in *.
  assert (Hkind : forall (p : dtype -> bool) c, In c (df_columns X) ->
            (In (col_name c)
                (map col_name (filter (fun c => p (col_dtype c)) (df_columns X)))
             <-> p (col_dtype c) = true)).
  { intros p c Hc. rewrite in_kind_cols. split.
    - intros (c' & Hc' & Hn & Hp).
      now rewrite <- (same_name_same_column _ _ _ Hnames Hc' Hc Hn).
    - intro Hp. eauto. }
  split; [|split].
  - intros n Hn Hcat.
    apply in_kind_cols in Hn as (c & Hc & <- & Hnum).
    apply (Hkind is_object_or_category c Hc) in Hcat.
    rewrite (kinds_exclusive _ Hnum) in Hcat. discriminate Hcat.
  - intros c Hc. split; [apply (Hkind is_number c Hc)|].
    split; [apply (Hkind is_object_or_category c Hc)|].
    unfold unlisted. rewrite andb_true_iff, !negb_true_iff.
    intros [Hn Ho] Hin. apply in_app_or in Hin as [Hin|Hin].
    + apply (Hkind is_number c Hc) in Hin. congruence.
    + apply (Hkind is_object_or_category c Hc) in Hin. congruence.
  - unfold preprocessor, transformers. split.
    + intros Hnone c Hc. unfold unlisted.
      rewrite andb_true_iff, !negb_true_iff. split.
      * destruct (is_number (col_dtype c)) eqn:E; [|reflexivity].
        apply (Hkind is_number c Hc) in E.
        destruct (map col_name
                      (filter (fun c => is_number (col_dtype c)) (df_columns X)));
          [destruct E|discriminate Hnone].
      * destruct (is_object_or_category (col_dtype c)) eqn:E; [|reflexivity].
        apply (Hkind is_object_or_category c Hc) in E.
        destruct (map col_name
                      (filter (fun c => is_object_or_category (col_dtype c))
                              (df_columns X)));
          [destruct E|].
        destruct (map col_name
                      (filter (fun c => is_number (col_dtype c)) (df_columns X)));
          discriminate Hnone.
    + intro Hall.
      rewrite (kind_cols_empty is_number),
              (kind_cols_empty is_object_or_category);
        [reflexivity| |]; intros c Hc; specialize (Hall c Hc);
        unfold unlisted in Hall;
        rewrite andb_true_iff, !negb_true_iff in Hall; tauto.
Qed.

Lemma column_kinds_witness :
  ~ In "Scholarship"%string
       (numeric_cols flagged_frame ++ categorical_cols flagged_frame) /\
  numeric_cols flagged_frame = ["Age"; "Dropout_Risk"]%string.
Proof.
  destruct (column_kinds flagged_frame) as (_ & Hcol & _).
  - repeat constructor; simpl; intuition discriminate.
  - destruct (Hcol (mkColumn "Scholarship" bool_ [SBool true; SBool false]))
      as (_ & _ & Hflag).
    + simpl. auto.
    + split; [exact (Hflag eq_refl)|reflexivity].
Defined.

Lemma nodup_short (y : list Z) :
  (length (nodup Z.eq_dec y) <= 1)%nat <->
  (forall a b, In a y -> In b y -> a = b).
Proof.
  pose proof (NoDup_nodup Z.eq_dec y) as Hnd.
  pose proof (nodup_In Z.eq_dec y) as Hin.
  destruct (nodup Z.eq_dec y) as [|x [|x' rest]]; simpl.
  - split; [|lia]. intros _ a b Ha. apply Hin in Ha. destruct Ha.
  - split; [|lia]. intros _ a b Ha Hb. apply Hin in Ha, Hb.
    destruct Ha as [<-|[]], Hb as [<-|[]]. reflexivity.
  - split; [lia|]. intro Hall. exfalso.
    inversion Hnd as [|? ? Hx _]; subst. apply Hx. left.
    apply Hall; apply Hin; simpl; auto.
Qed.

(** X4: the split is stratified by the labels exactly when two rows carry
    different labels; with a single label value, or no row, it is not. *)
Theorem stratified_iff_two_labels (y : list Z) :
  (stratify_arg y = None <->
   forall a b, In a y -> In b y -> a = b) /\
  (stratify_arg y = Some y <->
   exists a b, In a y /\ In b y /\ a <> b).
Proof.
  unfold stratify_arg.
  destruct (Nat.ltb_spec 1 (length (nodup Z.eq_dec y))) as [Hlt|Hle].
  - assert (Hnot : ~ forall a b, In a y -> In b y -> a = b).
    { intro H. apply (proj2 (nodup_short y)) in H. lia. }
    split; [split; [discriminate|tauto]|].
    split; [intros _|reflexivity].
    pose proof (nodup_In Z.eq_dec y) as Hin.
    pose proof (NoDup_nodup Z.eq_dec y) as Hnd.
    destruct (nodup Z.eq_dec y) as [|x [|x' rest]]; simpl in Hlt; try lia.
    exists x, x'. repeat split; try (apply Hin; simpl; auto).
    inversion Hnd as [|? ? Hx _]; subst. intros ->. apply Hx. now left.
  - pose proof (proj1 (nodup_short y) Hle) as Hall.
    split; [tauto|]. split; [discriminate|].
    intros (a & b & Ha & Hb & Hne). exfalso. apply Hne. now apply Hall.
Qed.

End Preprocess.
(* ================================================================== *)
(** ** Label encoding of the target column (lines 87-97) *)

(** Lexical order on strings, as [np.unique] sorts them. *)
Module StringOrder <: Orders.TotalLeBool.
Definition t := string.
Definition leb := String.leb.
Definition leb_total :
  forall a1 a2 : string, is_true (leb a1 a2) \/ is_true (leb a2 a1) :=
  String.leb_total.
End StringOrder.

Module StringSort := Mergesort.Sort StringOrder.

Module Target.
Import Frame.

(** [int(x)] on a float drops the fraction (rounds toward zero). *)
Definition truncate (q : Q) : Z := Z.quot (Qnum q) (Z.pos (Qden q)).

(** The 64-bit signed integers, and the wrap-around of a cast into them. *)
Definition in_int64 (z : Z) : bool :=
  Z.leb (- 2 ^ 63) z && Z.ltb z (2 ^ 63).

Definition int64_wrap (z : Z) : Z := ((z + 2 ^ 63) mod 2 ^ 64 - 2 ^ 63)%Z.

(** A cell the integer cast rejects: a missing or infinite value, or
    text. *)
Definition uncastable (v : scalar) : bool :=
  match v with
  | SNaN | SInf _ | SStr _ => true
  | SInt _ | SFloat _ | SBool _ => false
  end.

(** A cell that holds a whole number. *)
Definition whole_number (v : scalar) : bool :=
  match v with
  | SInt _ | SBool _ => true
  | SFloat q => Z.eqb (Z.rem (Qnum q) (Z.pos (Qden q))) 0
  | SStr _ | SNaN | SInf _ => false
  end.

(** Position of a class among the classes. *)
Fixpoint index_of (s : string) (classes : list string) : nat :=
  match classes with
  | [] => 0
  | c :: rest => if String.eqb s c then 0 else S (index_of s rest)
  end.

(** [np.unique]: the distinct values, sorted. *)
Definition np_unique (ys : list string) : list string :=
  StringSort.sort (nodup string_dec ys).

(** [LabelEncoder().fit_transform(ys)]: the fitted classes and, for each
    value, the position of its class. *)
Definition fit_transform (ys : list string) : list string * list Z :=
  let classes := np_unique ys in
  (classes, map (fun s => Z.of_nat (index_of s classes)) ys).

Section Encoding.

(** [str(x)] of a float, the library's shortest round-trip notation. *)
Variable float_repr : Q -> string.

(** What the cast of a finite float beyond the 64-bit range yields: the
    conversion is left to the processor (no exception is raised). *)
Variable float_overflow : Q -> Z.

(** One cell of [y_raw.astype(int)], a cast to 64-bit integers: an integer
    of another width wraps around, a float loses its fraction, a missing
    or infinite value raises; so does text that is no integer literal (not
    met on this path, which excludes object columns). *)
Definition int_of_scalar (v : scalar) : result exn Z :=
  match v with
  | SInt z => Ok (int64_wrap z)
  | SFloat q =>
      Ok (if in_int64 (truncate q) then truncate q else float_overflow q)
  | SBool b => Ok (Z.b2z b)
  | SStr _ => Raise (ValueError "invalid literal for int()")
  | SNaN | SInf _ =>
      Raise (ValueError "Cannot convert non-finite values (NA or inf) to integer")
  end.

Definition astype_int (ys : list scalar) : result exn (list Z) :=
  mapM int_of_scalar ys.

(** One cell of [y_raw.astype(str)]. *)
Definition astype_str (v : scalar) : string :=
  match v with
  | SInt z => NilZero.string_of_int (Z.to_int z)
  | SFloat q => float_repr q
  | SBool true => "True"
  | SBool false => "False"
  | SStr s => s
  | SNaN => "nan"
  | SInf false => "inf"
  | SInf true => "-inf"
  end.

(** The [LabelEncoder] path: [le_target] is kept, [y] are the codes. *)
Definition label_path (y_raw : list scalar) : list Z * option (list string) :=
  let (classes, codes) := fit_transform (map astype_str y_raw) in
  (codes, Some classes).

(** Lines 88-97: the label vector [y] and [le_target] (its classes, or
    [None]). *)
Definition encode_target (dt : dtype) (y_raw : list scalar)
  : list Z * option (list string) :=
  if is_object_or_category dt
  then label_path y_raw
  else match astype_int y_raw with
       | Ok y => (y, None)
       | Raise _ => label_path y_raw
       end.

(** A mapping of the values to consecutive integers from 0: every value is
    sent to the position of its class, the classes are the distinct values
    in lexical order, and every position is taken. *)
Definition consecutive_mapping (ys : list string) (classes : list string)
           (codes : list Z) : Prop :=
  length codes = length ys /\
  NoDup classes /\
  Sorted (fun a b => is_true (String.leb a b)) classes /\
  (forall s, In s classes <-> In s ys) /\
  (forall i s, nth_error ys i = Some s ->
     exists c, nth_error codes i = Some (Z.of_nat c) /\
               nth_error classes c = Some s) /\
  (forall c, (c < length classes)%nat -> In (Z.of_nat c) codes).

(** C6 as the spec words it: a numeric target with a value that is not a
    whole number takes the string-mapping path. *)
Definition fallback_as_stated (dt : dtype) (y_raw : list scalar) : Prop :=
  is_object_or_category dt = false ->
  forallb whole_number y_raw = false ->
  encode_target dt y_raw = label_path y_raw.

(* ------------------------------------------------------------------ *)

Lemma index_of_found s classes :
  In s classes -> nth_error classes (index_of s classes) = Some s.
Proof.
  induction classes as [|c rest IH]; simpl; [tauto|].
  destruct (String.eqb_spec s c) as [->|Hne]; [reflexivity|].
  intros [Heq|Hin]; [congruence|]. simpl. auto.
Qed.

Lemma index_of_nth classes :
  NoDup classes ->
  forall c s, nth_error classes c = Some s -> index_of s classes = c.
Proof.
  induction 1 as [|x rest Hx _ IH]; intros [|c] s Hc; simpl in *;
    try discriminate.
  - injection Hc as ->. now rewrite String.eqb_refl.
  - destruct (String.eqb_spec s x) as [->|_].
    + exfalso. apply Hx. eapply nth_error_In; eassumption.
    + f_equal. auto.
Qed.

Lemma np_unique_spec ys :
  NoDup (np_unique ys) /\
  Sorted (fun a b => is_true (String.leb a b)) (np_unique ys) /\
  forall s, In s (np_unique ys) <-> In s ys.
Proof.
  unfold np_unique.
  pose proof (StringSort.Permuted_sort (nodup string_dec ys)) as HP.
  repeat split.
  - eapply Permutation_NoDup; [exact HP|]. apply NoDup_nodup.
  - apply StringSort.Sorted_sort.
  - intro H. apply (nodup_In string_dec).
    eapply Permutation_in; [symmetry; exact HP|exact H].
  - intro H. eapply Permutation_in; [exact HP|].
    now apply nodup_In.
Qed.

Lemma fit_transform_consecutive ys :
  consecutive_mapping ys (fst (fit_transform ys)) (snd (fit_transform ys)).
Proof.
  unfold fit_transform; simpl.
  destruct (np_unique_spec ys) as (Hnd & Hsort & Hin).
  unfold consecutive_mapping. repeat split; try assumption;
    try (now apply Hin).
  - apply length_map.
  - intros i s Hi. exists (index_of s (np_unique ys)).
    rewrite nth_error_map, Hi. split; [reflexivity|].
    apply index_of_found, Hin. eapply nth_error_In; eassumption.
  - intros c Hc.
    destruct (nth_error (np_unique ys) c) as [s|] eqn:Es.
    + apply in_map_iff. exists s. split.
      * now rewrite (index_of_nth _ Hnd c s Es).
      * apply Hin. eapply nth_error_In; eassumption.
    + apply nth_error_None in Es. lia.
Qed.

(** The cast raises exactly when some cell is missing, infinite or
    text. *)
Lemma astype_int_raises ys :
  (exists e, astype_int ys = Raise e) <-> existsb uncastable ys = true.
Proof.
  unfold astype_int. induction ys as [|v ys IH]; simpl.
  - split; [intros [e H]; discriminate|discriminate].
  - destruct v; simpl;
      try (split; [reflexivity|intros _; eexists; reflexivity]);
      (rewrite <- IH; split; intros [e H];
       [ destruct (mapM int_of_scalar ys); simpl in H;
         [discriminate|eauto]
       | rewrite H; simpl; eauto ]).
Qed.

Lemma int64_wrap_small z :
  (- 2 ^ 63 <= z < 2 ^ 63)%Z -> int64_wrap z = z.
Proof.
  intro H. unfold int64_wrap. rewrite Z.mod_small; lia.
Qed.

Lemma in_int64_range z :
  in_int64 z = true <-> (- 2 ^ 63 <= z < 2 ^ 63)%Z.
Proof.
  unfold in_int64. rewrite andb_true_iff, Z.leb_le, Z.ltb_lt. tauto.
Qed.

(** On cells that hold numbers the cast returns, cell by cell. *)
Lemma astype_int_casts ys :
  Forall (fun v => match v with
                   | SInt _ | SFloat _ | SBool _ => True
                   | _ => False
                   end) ys ->
  exists y,
    astype_int ys = Ok y /\
    Forall2 (fun v z =>
               match v with
               | SInt i => z = ((i + 2 ^ 63) mod 2 ^ 64 - 2 ^ 63)%Z
               | SFloat q =>
                   (- 2 ^ 63 <= Z.quot (Qnum q) (Z.pos (Qden q)) < 2 ^ 63)%Z ->
                   z = Z.quot (Qnum q) (Z.pos (Qden q))
               | SBool b => z = Z.b2z b
               | _ => False
               end) ys y.
Proof.
  unfold astype_int. induction 1 as [|v ys Hv _ (y & Hy & Hall)]; simpl.
  - exists []. split; [reflexivity|constructor].
  - rewrite Hy. destruct v; try contradiction; simpl; eexists;
      (split; [reflexivity|]); constructor; try exact Hall;
      try reflexivity.
    intro Hrange. apply in_int64_range in Hrange. unfold truncate in *.
    now rewrite Hrange.
Qed.

(** A float with a fraction is cast without an exception, and an
    unsigned integer beyond the signed range wraps around. *)
Example astype_int_truncates :
  astype_int [SFloat (3 # 2); SFloat (-5 # 2); SInt 1;
              SInt 18446744073709551615]
  = Ok [1; -2; 1; -1]%Z.
Proof. reflexivity. Qed.

(** C6 (amended): a text or categorical target is encoded by a mapping of
    its string values to consecutive integers; a numeric target with a
    missing or infinite value, on which the integer cast raises, takes the
    same path; any other numeric target is cast directly to 64-bit
    integers and no encoder is kept: an integer wraps around, a boolean
    becomes 0 or 1, and a float loses its fraction (it is truncated toward
    zero, not sent to the string mapping). *)
Theorem target_label_encoding (dt : dtype) (y_raw : list scalar) :
  (is_object_or_category dt = true ->
   encode_target dt y_raw = label_path y_raw) /\
  (is_object_or_category dt = false ->
   (exists v, In v y_raw /\
              match v with
              | SNaN | SInf _ | SStr _ => True
              | _ => False
              end) ->
   encode_target dt y_raw = label_path y_raw) /\
  (is_object_or_category dt = false ->
   Forall (fun v => match v with
                    | SInt _ | SFloat _ | SBool _ => True
                    | _ => False
                    end) y_raw ->
   exists y,
     encode_target dt y_raw = (y, None) /\
     Forall2 (fun v z =>
                match v with
                | SInt i => z = ((i + 2 ^ 63) mod 2 ^ 64 - 2 ^ 63)%Z
                | SFloat q =>
                    (- 2 ^ 63 <= Z.quot (Qnum q) (Z.pos (Qden q)) < 2 ^ 63)%Z ->
                    z = Z.quot (Qnum q) (Z.pos (Qden q))
                | SBool b => z = Z.b2z b
                | _ => False
                end) y_raw y) /\
  ((exists e, astype_int y_raw = Raise e) <->
   existsb uncastable y_raw = true) /\
  (exists classes codes,
     label_path y_raw = (codes, Some classes) /\
     consecutive_mapping (map astype_str y_raw) classes codes).
Proof.
  unfold encode_target.
  split; [now intros ->|]. split.
  { intros -> (v & Hin & Hv).
    assert (Hraise : exists e, astype_int y_raw = Raise e).
    { apply astype_int_raises, existsb_exists. exists v.
      split; [exact Hin|]. destruct v; try contradiction; reflexivity. }
    destruct Hraise as [e ->]. reflexivity. }
  split.
  { intros -> Hall. destruct (astype_int_casts y_raw Hall) as (y & -> & Hy).
    exists y. split; [reflexivity|exact Hy]. }
  split; [apply astype_int_raises|].
  unfold label_path.
  pose proof (fit_transform_consecutive (map astype_str y_raw)) as H.
  destruct (fit_transform (map astype_str y_raw)) as [classes codes].
  exists classes, codes. split; [reflexivity|exact H].
Qed.

Lemma mapM_length {A B : Type} (f : A -> result exn B) l l' :
  mapM f l = Ok l' -> length l' = length l.
Proof.
  intro H. apply mapM_Forall2 in H. symmetry. eapply Forall2_length. exact H.
Qed.

Lemma index_of_lt s classes :
  In s classes -> (index_of s classes < length classes)%nat.
Proof.
  intro H. apply nth_error_Some. rewrite (index_of_found _ _ H). discriminate.
Qed.

Lemma astype_int_ints zs :
  Forall (fun z => (- 2 ^ 63 <= z < 2 ^ 63)%Z) zs ->
  astype_int (map SInt zs) = Ok zs.
Proof.
  unfold astype_int. induction 1 as [|z zs Hz _ IH]; simpl; [reflexivity|].
  now rewrite IH, (int64_wrap_small z Hz).
Qed.

(** X5: the label vector has one label per row on every path; when an
    encoder is kept every label is a position among its classes, when none
    is kept the labels are the integer cast of the column, and a
    non-object column of integers within the signed 64-bit range is used
    as it is. *)
Theorem label_vector_shape (dt : dtype) (y_raw : list scalar) :
  length (fst (encode_target dt y_raw)) = length y_raw /\
  (forall classes, snd (encode_target dt y_raw) = Some classes ->
     Forall (fun c => (0 <= c < Z.of_nat (length classes))%Z)
            (fst (encode_target dt y_raw))) /\
  (snd (encode_target dt y_raw) = None ->
   astype_int y_raw = Ok (fst (encode_target dt y_raw))) /\
  (forall zs, is_object_or_category dt = false ->
     Forall (fun z => (- 2 ^ 63 <= z < 2 ^ 63)%Z) zs ->
     encode_target dt (map SInt zs) = (zs, None)).
Proof.
  assert (Hpath : length (fst (label_path y_raw)) = length y_raw /\
                  forall classes, snd (label_path y_raw) = Some classes ->
                    Forall (fun c => (0 <= c < Z.of_nat (length classes))%Z)
                           (fst (label_path y_raw))).
  { unfold label_path, fit_transform; simpl.
    rewrite !length_map. split; [reflexivity|].
    intros classes Hc. injection Hc as <-.
    apply Forall_forall. intros c Hin.
    apply in_map_iff in Hin as (s & <- & Hs).
    pose proof (index_of_lt s (np_unique (map astype_str y_raw))) as Hlt.
    destruct (np_unique_spec (map astype_str y_raw)) as (_ & _ & Hiff).
    specialize (Hlt (proj2 (Hiff s) Hs)). lia. }
  destruct Hpath as [Hlen Hrange].
  assert (Hsome : snd (label_path y_raw) <> None).
  { unfold label_path.
    destruct (fit_transform (map astype_str y_raw)). discriminate. }
  unfold encode_target.
  destruct (is_object_or_category dt).
  - repeat split; try assumption; try (intro H; contradiction);
      try (intros; discriminate).
  - destruct (astype_int y_raw) as [y|e] eqn:E; simpl.
    + repeat split.
      * now apply mapM_length in E.
      * discriminate.
      * intros zs _ Hzs. now rewrite (astype_int_ints zs Hzs).
    + repeat split; try assumption; try (intro H; contradiction).
      intros zs _ Hzs. now rewrite (astype_int_ints zs Hzs).
Qed.

End Encoding.

(** A float notation and an out-of-range cast for concrete instances (the
    processor's "integer indefinite" value). *)
Definition sample_repr (q : Q) : string :=
  (NilZero.string_of_int (Z.to_int (Qnum q)) ++ "/"
   ++ NilZero.string_of_uint (Pos.to_uint (Qden q)))%string.

Definition sample_overflow (q : Q) : Z := (- 2 ^ 63)%Z.

(** C6, counterexample: a float target with the value 1.5 is numeric and
    not whole, yet it is cast directly to [1; 1] with no encoder, and not
    sent through the string mapping. *)
Lemma fractional_target_is_cast_directly :
  exists y_raw,
    y_raw = [SFloat (3 # 2); SFloat (1 # 1)] /\
    forallb whole_number y_raw = false /\
    encode_target sample_repr sample_overflow float64 y_raw
    = ([1; 1]%Z, None) /\
    ~ fallback_as_stated sample_repr sample_overflow float64 y_raw.
Proof.
  eexists. split; [reflexivity|]. split; [reflexivity|].
  split; [reflexivity|].
  intro H. specialize (H eq_refl eq_refl).
  vm_compute in H. discriminate H.
Qed.

End Target.
(* ================================================================== *)
(** ** Feature-importance extraction and alignment (lines 178-194) *)

(** Rows of an importance table, larger score first
    ([sort_values('importance', ascending=False)]). *)
Module ScoreOrder <: Orders.TotalLeBool.
Definition t := (string * Q)%type.
Definition leb (a b : t) : bool := Qle_bool (snd b) (snd a).
Definition leb_total :
  forall a1 a2 : t, is_true (leb a1 a2) \/ is_true (leb a2 a1) :=
  fun a1 a2 =>
    match Qlt_le_dec (snd a1) (snd a2) with
    | left Hlt => or_intror (proj2 (Qle_bool_iff _ _) (Qlt_le_weak _ _ Hlt))
    | right Hle => or_introl (proj2 (Qle_bool_iff _ _) Hle)
    end.
End ScoreOrder.

Module ScoreSort := Mergesort.Sort ScoreOrder.

Module Importance.

(** The coefficient array of a linear learner after [np.array(coef_)]:
    one vector, or a matrix with one row per class (at least one row). *)
Inductive ndarray : Type :=
| Vec (v : list Q)
| Mat (row0 : list Q) (rows : list (list Q)).

(** The two optional attributes the script probes with [hasattr]. *)
Record learner : Type := mkLearner {
  feature_importances_ : option (list Q);
  coef_ : option ndarray
}.

Definition importance_table_t : Type := list (string * Q).

Fixpoint zip_with {A B C : Type} (f : A -> B -> C) (l : list A) (l' : list B)
  : list C :=
  match l, l' with
  | a :: t, b :: t' => f a b :: zip_with f t t'
  | _, _ => []
  end.

(** [np.mean(m, axis=0)] of a matrix given by its first row and the rest:
    the column sums divided by the number of rows. *)
Definition mean_axis0 (row0 : list Q) (rows : list (list Q)) : list Q :=
  map (fun s => s / inject_Z (Z.of_nat (S (length rows))))
      (fold_left (zip_with Qplus) rows row0).

(** Lines 178-188. *)
Definition extract_importance (model_obj : learner) : option (list Q) :=
  match feature_importances_ model_obj with
  | Some imp => Some imp
  | None =>
      match coef_ model_obj with
      | Some (Vec coef) => Some (map Qabs coef)
      | Some (Mat row0 rows) =>
          Some (mean_axis0 (map Qabs row0) (map (map Qabs) rows))
      | None => None
      end
  end.

(** [pd.DataFrame({'feature': names, 'importance': imp})
      .sort_values('importance', ascending=False)] on equally long
    arguments. *)
Definition sorted_frame (names : list string) (imp : list Q)
  : importance_table_t :=
  ScoreSort.sort (combine names imp).

(** Lines 189-194, for an [imp] that is not [None]. *)
Definition importance_table (feat_names : list string) (imp : list Q)
  : importance_table_t :=
  if Nat.eqb (length imp) (length feat_names)
  then sorted_frame feat_names imp
  else
    let minlen := Nat.min (length imp) (length feat_names) in
    sorted_frame (firstn minlen feat_names) (firstn minlen imp).

(** The entry written to [feature_importances[name]], if any. *)
Definition importance_entry (model_obj : learner) (feat_names : list string)
  : option importance_table_t :=
  option_map (importance_table feat_names) (extract_importance model_obj).

(** Sum of the absolute values of column [j]. *)
Definition abs_column_sum (j : nat) (rows : list (list Q)) : Q :=
  fold_right (fun row acc => Qabs (nth j row 0) + acc) 0 rows.

(** Non-increasing scores, every row against every later one. *)
Definition non_increasing (t : importance_table_t) : Prop :=
  StronglySorted (fun a b => snd b <= snd a) t.

(* ------------------------------------------------------------------ *)

Lemma zip_with_length {A B C : Type} (f : A -> B -> C) l l' :
  length l = length l' -> length (zip_with f l l') = length l.
Proof.
  revert l'. induction l as [|a l IH]; intros [|b l'] H; simpl in *;
    try discriminate; auto.
Qed.

Lemma zip_with_nth {A : Type} (f : A -> A -> A) l l' d j :
  length l = length l' -> (j < length l)%nat ->
  nth j (zip_with f l l') d = f (nth j l d) (nth j l' d).
Proof.
  revert l' j. induction l as [|a l IH]; intros [|b l'] [|j] Hlen Hj;
    simpl in *; try discriminate; try lia; auto.
  apply IH; [congruence|lia].
Qed.

Lemma fold_zip_length (rows : list (list Q)) acc :
  Forall (fun r => length r = length acc) rows ->
  length (fold_left (zip_with Qplus) rows acc) = length acc.
Proof.
  revert acc. induction rows as [|r rows IH]; intros acc H; simpl;
    [reflexivity|].
  inversion H as [|? ? Hr Hrows]; subst.
  rewrite IH.
  - apply zip_with_length. congruence.
  - rewrite zip_with_length by congruence. exact Hrows.
Qed.

Lemma fold_zip_nth (rows : list (list Q)) acc j :
  Forall (fun r => length r = length acc) rows ->
  (j < length acc)%nat ->
  nth j (fold_left (zip_with Qplus) rows acc) 0
  == nth j acc 0 + fold_right (fun row s => nth j row 0 + s) 0 rows.
Proof.
  revert acc. induction rows as [|r rows IH]; intros acc H Hj; simpl.
  - ring.
  - inversion H as [|? ? Hr Hrows]; subst.
    rewrite IH.
    + rewrite zip_with_nth by (congruence || assumption). ring.
    + rewrite zip_with_length by congruence. exact Hrows.
    + rewrite zip_with_length by congruence. exact Hj.
Qed.

Lemma abs_rows_sum j rows :
  fold_right (fun row s => nth j row 0 + s) 0 (map (map Qabs) rows)
  == abs_column_sum j rows.
Proof.
  unfold abs_column_sum. induction rows as [|r rows IH]; simpl.
  - reflexivity.
  - rewrite IH. change 0 with (Qabs 0) at 1. rewrite map_nth. reflexivity.
Qed.

(** Each entry of the class mean is the column's mean absolute value. *)
Lemma mean_axis0_abs row0 rows j :
  Forall (fun r => length r = length row0) rows ->
  (j < length row0)%nat ->
  length (mean_axis0 (map Qabs row0) (map (map Qabs) rows)) = length row0 /\
  nth j (mean_axis0 (map Qabs row0) (map (map Qabs) rows)) 0
  == abs_column_sum j (row0 :: rows)
     / inject_Z (Z.of_nat (S (length rows))).
Proof.
  intros Hrect Hj.
  assert (Hrect' : Forall (fun r => length r = length (map Qabs row0))
                          (map (map Qabs) rows)).
  { apply Forall_forall. intros r Hr. apply in_map_iff in Hr as [r0 [<- Hr0]].
    rewrite !length_map. rewrite Forall_forall in Hrect. auto. }
  unfold mean_axis0. rewrite !length_map.
  rewrite (fold_zip_length _ _ Hrect'), length_map. split; [reflexivity|].
  set (k := inject_Z (Z.of_nat (S (length rows)))).
  rewrite (nth_indep _ 0 (0 / k))
    by (rewrite length_map, (fold_zip_length _ _ Hrect'), length_map; exact Hj).
  rewrite (map_nth (fun s => s / k)).
  rewrite (fold_zip_nth _ _ j Hrect') by (rewrite length_map; exact Hj).
  rewrite abs_rows_sum. simpl.
  change 0 with (Qabs 0) at 1. rewrite map_nth. reflexivity.
Qed.

Lemma in_combine_firstn {A B : Type} n (l : list A) (l' : list B) p :
  In p (combine (firstn n l) (firstn n l')) -> In p (combine l l').
Proof.
  revert l l'. induction n as [|n IH]; intros [|a l] [|b l']; simpl;
    try tauto.
  intros [H|H]; [now left|right; auto].
Qed.

Lemma score_leb_trans : Transitive (fun a b => is_true (ScoreOrder.leb a b)).
Proof.
  intros a b c Hab Hbc. unfold ScoreOrder.leb, is_true in *.
  rewrite Qle_bool_iff in *. eapply Qle_trans; eassumption.
Qed.

Lemma sorted_frame_spec names imp :
  non_increasing (sorted_frame names imp) /\
  Permutation (combine names imp) (sorted_frame names imp) /\
  length (sorted_frame names imp) = Nat.min (length names) (length imp).
Proof.
  unfold sorted_frame, non_increasing. repeat split.
  - pose proof (ScoreSort.StronglySorted_sort (combine names imp)
                  score_leb_trans) as H.
    induction H as [|a l _ IH Hall]; constructor; [exact IH|].
    apply Forall_forall. intros b Hb. rewrite Forall_forall in Hall.
    apply Qle_bool_iff. exact (Hall b Hb).
  - apply ScoreSort.Permuted_sort.
  - rewrite <- (Permutation_length (ScoreSort.Permuted_sort _)).
    apply length_combine.
Qed.

(** C7: the native importance array wins; without it the coefficients are
    used, a vector through its absolute values and a class matrix through
    the mean of the absolute values over the classes; a learner with
    neither attribute gets no importance table. *)
Theorem importance_precedence (model_obj : learner) :
  (forall imp, feature_importances_ model_obj = Some imp ->
     extract_importance model_obj = Some imp) /\
  (feature_importances_ model_obj = None ->
   forall coef, coef_ model_obj = Some (Vec coef) ->
     extract_importance model_obj = Some (map Qabs coef)) /\
  (feature_importances_ model_obj = None ->
   forall row0 rows, coef_ model_obj = Some (Mat row0 rows) ->
     exists imp,
       extract_importance model_obj = Some imp /\
       (Forall (fun r => length r = length row0) rows ->
        length imp = length row0 /\
        forall j, (j < length row0)%nat ->
          nth j imp 0 == abs_column_sum j (row0 :: rows)
                         / inject_Z (Z.of_nat (S (length rows))))) /\
  (feature_importances_ model_obj = None -> coef_ model_obj = None ->
   extract_importance model_obj = None /\
   forall feat_names, importance_entry model_obj feat_names = None).
Proof.
  unfold importance_entry, extract_importance.
  destruct model_obj as [fi cf]; simpl. repeat split.
  - now intros imp ->.
  - intros -> coef ->. reflexivity.
  - intros -> row0 rows ->. eexists. split; [reflexivity|].
    intro Hrect. split.
    + destruct row0 as [|x row0].
      * unfold mean_axis0. rewrite length_map.
        rewrite fold_zip_length; [reflexivity|].
        apply Forall_forall. intros r Hr.
        apply in_map_iff in Hr as [r0 [<- Hr0]]. rewrite length_map.
        rewrite Forall_forall in Hrect. auto.
      * apply (mean_axis0_abs (x :: row0) rows 0 Hrect). simpl. lia.
    + intros j Hj. now apply mean_axis0_abs.
  - intros; subst; reflexivity.
  - intros; subst; reflexivity.
Qed.

(** C5: when the score array and the name list differ in length, the table
    is built from both cut to the shorter length; every table, aligned or
    cut, is sorted by non-increasing score and has at most as many rows as
    there are feature names. *)
Theorem importance_table_alignment (feat_names : list string) (imp : list Q) :
  (length imp <> length feat_names ->
   let minlen := Nat.min (length imp) (length feat_names) in
   importance_table feat_names imp
   = sorted_frame (firstn minlen feat_names) (firstn minlen imp) /\
   Permutation (combine (firstn minlen feat_names) (firstn minlen imp))
               (importance_table feat_names imp) /\
   length (importance_table feat_names imp) = minlen) /\
  non_increasing (importance_table feat_names imp) /\
  (length (importance_table feat_names imp) <= length feat_names)%nat /\
  (forall row, In row (importance_table feat_names imp) ->
               In row (combine feat_names imp)).
Proof.
  unfold importance_table.
  destruct (Nat.eqb_spec (length imp) (length feat_names)) as [Heq|Hne].
  - split; [intro H; contradiction|].
    destruct (sorted_frame_spec feat_names imp) as (Hs & Hp & Hl).
    repeat split; [exact Hs|lia|].
    intros row Hrow. eapply Permutation_in; [symmetry; exact Hp|exact Hrow].
  - set (minlen := Nat.min (length imp) (length feat_names)).
    destruct (sorted_frame_spec (firstn minlen feat_names)
                                (firstn minlen imp)) as (Hs & Hp & Hl).
    rewrite !length_firstn in Hl.
    repeat split; try assumption; try lia.
    intros row Hrow.
    apply (Permutation_in _ (Permutation_sym Hp)) in Hrow.
    now apply in_combine_firstn in Hrow.
Qed.

Example importance_table_cut :
  importance_table ["Age"; "CGPA"; "Hours"]%string [1 # 4; 1 # 2]
  = [("CGPA"%string, 1 # 2); ("Age"%string, 1 # 4)].
Proof. reflexivity. Qed.

Lemma zip_with_nonneg (a b : list Q) :
  Forall (fun x => 0 <= x) a -> Forall (fun x => 0 <= x) b ->
  Forall (fun x => 0 <= x) (zip_with Qplus a b).
Proof.
  intro Ha. revert b. induction Ha as [|x a Hx _ IH]; intros b Hb; simpl;
    [constructor|].
  destruct Hb as [|y b Hy Hb]; constructor.
  - lra.
  - now apply IH.
Qed.

Lemma abs_nonneg (v : list Q) : Forall (fun x => 0 <= x) (map Qabs v).
Proof.
  induction v as [|x v IH]; simpl; constructor; [apply Qabs_nonneg|exact IH].
Qed.

Lemma fold_zip_nonneg (rows : list (list Q)) : forall acc,
  Forall (fun x => 0 <= x) acc ->
  Forall (Forall (fun x => 0 <= x)) rows ->
  Forall (fun x => 0 <= x) (fold_left (zip_with Qplus) rows acc).
Proof.
  induction rows as [|r rows IH]; intros acc Hacc Hrows; simpl; [exact Hacc|].
  inversion Hrows as [|? ? Hr Hrest]; subst.
  apply IH; [now apply zip_with_nonneg|exact Hrest].
Qed.

(** X14: importances taken from coefficients are never negative, so every
    score of the table built from them is non-negative, whatever the
    signs of the coefficients. *)
Theorem coefficient_importance_nonnegative
        (model_obj : learner) (imp : list Q) (feat_names : list string)
        (Hnative : feature_importances_ model_obj = None)
        (Himp : extract_importance model_obj = Some imp) :
  Forall (fun x => 0 <= x) imp /\
  Forall (fun row => 0 <= snd row) (importance_table feat_names imp).
Proof.
  assert (Hnonneg : Forall (fun x => 0 <= x) imp).
  { unfold extract_importance in Himp. rewrite Hnative in Himp.
    destruct (coef_ model_obj) as [[coef|row0 rows]|]; [| |discriminate];
      injection Himp as <-.
    - apply abs_nonneg.
    - unfold mean_axis0. apply Forall_forall. intros x Hx.
      apply in_map_iff in Hx as (s & <- & Hs).
      apply Qle_shift_div_l; [reflexivity|]. rewrite Qmult_0_l.
      revert s Hs. apply Forall_forall.
      apply fold_zip_nonneg; [apply abs_nonneg|].
      apply Forall_forall. intros r Hr.
      apply in_map_iff in Hr as (r0 & <- & _). apply abs_nonneg. }
  split; [exact Hnonneg|].
  apply Forall_forall. intros [name score] Hrow. simpl.
  assert (Hin : In (name, score) (combine feat_names imp)).
  { unfold importance_table in Hrow.
    destruct (Nat.eqb (length imp) (length feat_names)).
    - destruct (sorted_frame_spec feat_names imp) as (_ & Hp & _).
      eapply Permutation_in; [symmetry; exact Hp|exact Hrow].
    - destruct (sorted_frame_spec
                  (firstn (Nat.min (length imp) (length feat_names)) feat_names)
                  (firstn (Nat.min (length imp) (length feat_names)) imp))
        as (_ & Hp & _).
      apply (Permutation_in _ (Permutation_sym Hp)) in Hrow.
      now apply in_combine_firstn in Hrow. }
  apply in_combine_r in Hin. rewrite Forall_forall in Hnonneg. auto.
Qed.

Lemma coefficient_importance_nonnegative_witness :
  Forall (fun x => 0 <= x) [3 # 2; 1 # 4].
Proof.
  apply (coefficient_importance_nonnegative
           {| feature_importances_ := None;
              coef_ := Some (Vec [-3 # 2; 1 # 4]) |}
           [3 # 2; 1 # 4] ["Age"; "CGPA"]%string); reflexivity.
Defined.

End Importance.
(* ================================================================== *)
(** ** Training loop, session store and "Save best model"
       (lines 107-213) *)

Module Training.
Import Importance.

(** The seven options of the multiselect, which are also the keys of
    [estimators]. *)
Inductive algo : Set :=
| LogisticRegression
| RandomForest
| GradientBoosting
| DecisionTree
| SVM
| KNN
| NaiveBayes.

Definition algo_name (a : algo) : string :=
  match a with
  | LogisticRegression => "Logistic Regression"
  | RandomForest => "Random Forest"
  | GradientBoosting => "Gradient Boosting"
  | DecisionTree => "Decision Tree"
  | SVM => "SVM"
  | KNN => "KNN"
  | NaiveBayes => "Naive Bayes"
  end.

(** The catalog in the order the script lists it. *)
Definition catalog : list algo :=
  [LogisticRegression; RandomForest; GradientBoosting; DecisionTree;
   SVM; KNN; NaiveBayes].

Definition catalog_index (a : algo) : nat :=
  match a with
  | LogisticRegression => 0
  | RandomForest => 1
  | GradientBoosting => 2
  | DecisionTree => 3
  | SVM => 4
  | KNN => 5
  | NaiveBayes => 6
  end.

Definition algo_eqb (a b : algo) : bool :=
  Nat.eqb (catalog_index a) (catalog_index b).

(** A Python [dict] keyed by algorithm name: an association list in
    insertion order. *)
Definition dict (V : Type) : Type := list (algo * V).

Definition keys {V : Type} (d : dict V) : list algo := map fst d.

(** [d[k] = v]: an existing key keeps its place, a new key goes last. *)
Fixpoint dict_set {V : Type} (k : algo) (v : V) (d : dict V) : dict V :=
  match d with
  | [] => [(k, v)]
  | (k', v') :: rest =>
      if algo_eqb k' k then (k', v) :: rest else (k', v') :: dict_set k v rest
  end.

Fixpoint dict_get {V : Type} (k : algo) (d : dict V) : option V :=
  match d with
  | [] => None
  | (k', v') :: rest => if algo_eqb k' k then Some v' else dict_get k rest
  end.

(** [a > b] on scores. *)
Definition Qgtb (a b : Q) : bool := negb (Qle_bool a b).

(** [max(items, key=key)]: the first item is kept until a strictly larger
    key is met; an empty argument raises. *)
Definition py_max {A : Type} (key : A -> Q) (items : list A) : result exn A :=
  match items with
  | [] => Raise (ValueError "max() arg is an empty sequence")
  | first :: rest =>
      Ok (fold_left (fun best item =>
                       if Qgtb (key item) (key best) then item else best)
                    rest first)
  end.

(** [joblib.dump(obj, filename)] on a store of named artifacts. *)
Definition dump {P : Type} (files : string -> option P) (filename : string)
           (obj : P) : string -> option P :=
  fun f => if String.eqb f filename then Some obj else files f.

Definition best_model_file : string := "best_dropout_model.joblib".

(** *** A concrete run

    Pipelines are named by their algorithm; the support-vector classifier
    fails in [fit], the nearest-neighbour classifier in [predict];
    logistic regression and the random forest predict alike. *)

Definition demo_y_test : list Z := [0; 1; 0; 0; 1]%Z.

Definition demo_fit (a : algo) : result exn algo :=
  match a with
  | SVM => Raise (LibraryError "Input X contains NaN.")
  | _ => Ok a
  end.

Definition demo_predict (pipe : algo) : result exn (list Z) :=
  match pipe with
  | KNN => Raise (ValueError "Expected n_neighbors <= n_samples_fit")
  | DecisionTree => Ok [0; 0; 0; 0; 0]%Z
  | _ => Ok [0; 1; 0; 0; 0]%Z
  end.

(** Fraction of exact label matches. *)
Definition demo_accuracy (p : list Z) : Q :=
  inject_Z (Z.of_nat (length (filter (fun yp => Z.eqb (fst yp) (snd yp))
                                     (combine demo_y_test p))))
  / inject_Z (Z.of_nat (length demo_y_test)).

Definition demo_model (pipe : algo) : learner :=
  match pipe with
  | LogisticRegression =>
      {| feature_importances_ := None;
         coef_ := Some (Mat [-3 # 2; 1 # 4] []) |}
  | RandomForest | GradientBoosting | DecisionTree =>
      {| feature_importances_ := Some [3 # 10; 7 # 10]; coef_ := None |}
  | _ => {| feature_importances_ := None; coef_ := None |}
  end.

Definition demo_columns : list string := ["Age"; "CGPA"]%string.

(** The text of the exceptions of the concrete run. *)
Definition demo_str_exn (e : exn) : string :=
  match e with
  | KeyError msg | AttributeError msg | ValueError msg | TypeError msg
  | LibraryError msg => msg
  | IndexError => EmptyString
  end.

Section Run.

(** Fitted pipelines and prediction vectors of the modelling library. *)
Variables pipeline preds_t : Type.

(** [pipe.fit(X_train, y_train)] for the pipeline around [estimators[name]],
    on the split of this run: the fitted pipeline, or the exception. *)
Variable fit : algo -> result exn pipeline.

(** [pipe.predict(X_test)]. *)
Variable predict : pipeline -> result exn preds_t.

(** [accuracy_score(y_test, preds)]. *)
Variable accuracy_score : preds_t -> Q.

(** [pipe.named_steps['model']], as far as the script looks at it. *)
Variable model_obj : pipeline -> learner.

(** [numeric_cols], [categorical_cols] and [X.columns.tolist()]. *)
Variables numeric_cols categorical_cols X_columns : list string.

(** [enc.get_feature_names_out(categorical_cols).tolist()] of the fitted
    one-hot encoder. *)
Variable get_feature_names_out : pipeline -> result exn (list string).

(** [str(e)] of an exception raised inside [fit] or [predict]: the text
    the library gives it. *)
Variable str_exn : exn -> string.

Record result_entry : Type := mkEntry {
  accuracy : Q;
  preds : preds_t
}.

(** The three dictionaries of one training run and the warnings shown. *)
Record run_state : Type := mkRun {
  trained_models : dict pipeline;
  results : dict result_entry;
  feature_importances : dict importance_table_t;
  warnings : list string
}.

Definition empty_run : run_state :=
  {| trained_models := []; results := []; feature_importances := [];
     warnings := [] |}.

(** [preprocessor is not None]: some transformer was appended. *)
Definition has_preprocessor : bool :=
  match numeric_cols, categorical_cols with
  | [], [] => false
  | _, _ => true
  end.

(** Lines 159-176. *)
Definition feat_names_of (pipe : pipeline) : list string :=
  if has_preprocessor
  then
    let num_feats := numeric_cols in
    let cat_feats :=
      match categorical_cols with
      | [] => []
      | _ :: _ =>
          match get_feature_names_out pipe with
          | Ok cat_names => cat_names
          | Raise _ => categorical_cols
          end
      end in
    num_feats ++ cat_feats
  else X_columns.

Definition training_warning (name : algo) (e : exn) : string :=
  ("Training failed for " ++ algo_name name ++ ": " ++ str_exn e)%string.

Definition warn (st : run_state) (name : algo) (e : exn) : run_state :=
  {| trained_models := trained_models st;
     results := results st;
     feature_importances := feature_importances st;
     warnings := warnings st ++ [training_warning name e] |}.

(** One turn of the loop of lines 145-197. *)
Definition train_one (st : run_state) (name : algo) : run_state :=
  match fit name with
  | Raise e => warn st name e
  | Ok pipe =>
      match predict pipe with
      | Raise e => warn st name e
      | Ok p =>
          let acc := accuracy_score p in
          {| trained_models := dict_set name pipe (trained_models st);
             results :=
               dict_set name {| accuracy := acc; preds := p |} (results st);
             feature_importances :=
               match importance_entry (model_obj pipe) (feat_names_of pipe) with
               | Some table => dict_set name table (feature_importances st)
               | None => feature_importances st
               end;
             warnings := warnings st |}
      end
  end.

Definition train_selected (algos : list algo) : run_state :=
  fold_left train_one algos empty_run.

(** The keys of [st.session_state] the script writes; a key that was never
    written is [None]. *)
Record session : Type := mkSession {
  ss_trained_models : option (dict pipeline);
  ss_results : option (dict result_entry);
  ss_feature_importances : option (dict importance_table_t)
}.

(** Pressing "Train selected models": the three dictionaries replace what
    the session held (lines 200-202). *)
Definition press_train (algos : list algo) : session :=
  let st := train_selected algos in
  {| ss_trained_models := Some (trained_models st);
     ss_results := Some (results st);
     ss_feature_importances := Some (feature_importances st) |}.

Definition saved_message (best : algo) : string :=
  ("Saved best model to best_dropout_model.joblib (" ++ algo_name best ++ ")")%string.

(** Pressing "Save best model" (lines 209-213).  Without a ['results'] key
    the button is not drawn and nothing happens. *)
Definition save_best (ss : session) (files : string -> option pipeline)
  : result exn ((string -> option pipeline) * option string) :=
  match ss_results ss with
  | None => Ok (files, None)
  | Some res =>
      item <- py_max (fun x => accuracy (snd x)) res ;;
      let best := fst item in
      match ss_trained_models ss with
      | None => Raise (KeyError "trained_models")
      | Some models =>
          match dict_get best models with
          | None => Raise (KeyError (algo_name best))
          | Some pipe =>
              Ok (dump files best_model_file pipe, Some (saved_message best))
          end
      end
  end.

(** What the comparison panel shows (lines 217-259): charts for a
    non-empty results dictionary, the notice otherwise. *)
Inductive panel : Set :=
| Charts (names : list algo)
| NoResultsInfo.

Definition comparison_panel (ss : session) : panel :=
  match ss_results ss with
  | Some ((_ :: _) as res) => Charts (keys res)
  | Some [] | None => NoResultsInfo
  end.

(** The algorithm trained: both calls returned. *)
Definition outcome (name : algo) : option (pipeline * preds_t) :=
  match fit name with
  | Raise _ => None
  | Ok pipe =>
      match predict pipe with
      | Raise _ => None
      | Ok p => Some (pipe, p)
      end
  end.

(** The algorithm failed: the exception of [fit], or else of [predict]. *)
Definition failure (name : algo) : option exn :=
  match fit name with
  | Raise e => Some e
  | Ok pipe =>
      match predict pipe with
      | Raise e => Some e
      | Ok _ => None
      end
  end.

Definition trains (name : algo) : bool :=
  match outcome name with
  | Some _ => true
  | None => false
  end.

(** What a run over [l] appends to the dictionaries. *)
Fixpoint trained_entries (l : list algo)
  : list (algo * (pipeline * preds_t)) :=
  match l with
  | [] => []
  | a :: l' =>
      match outcome a with
      | Some r => (a, r) :: trained_entries l'
      | None => trained_entries l'
      end
  end.

Definition entry_of (r : pipeline * preds_t) : result_entry :=
  {| accuracy := accuracy_score (snd r); preds := snd r |}.

(** Ties by catalog order, as the spec words the tie-break: no stored
    algorithm with the accuracy of [best] comes before [best] in the
    catalog. *)
Definition ties_by_catalog_order (res : dict result_entry) (best : algo)
  : Prop :=
  forall a ea eb,
    In (a, ea) res -> In (best, eb) res -> accuracy ea == accuracy eb ->
    (catalog_index best <= catalog_index a)%nat.

(* ------------------------------------------------------------------ *)
(** *** Dictionaries *)

Lemma algo_eqb_eq a b : algo_eqb a b = true <-> a = b.
Proof.
  split; [|intros ->; destruct b; reflexivity].
  destruct a, b; simpl; intro H; try reflexivity; discriminate H.
Qed.

Lemma algo_eqb_refl a : algo_eqb a a = true.
Proof. now apply algo_eqb_eq. Qed.

Lemma algo_eqb_neq a b : a <> b -> algo_eqb a b = false.
Proof.
  intro H. destruct (algo_eqb a b) eqn:E; [|reflexivity].
  now apply algo_eqb_eq in E.
Qed.

Lemma in_keys_dict_set {V : Type} (k : algo) (v : V) d a :
  In a (keys (dict_set k v d)) <-> a = k \/ In a (keys d).
Proof.
  induction d as [|[k' v'] rest IH]; simpl.
  - intuition congruence.
  - destruct (algo_eqb k' k) eqn:E; simpl.
    + apply algo_eqb_eq in E. subst. intuition congruence.
    + unfold keys in IH. rewrite IH. tauto.
Qed.

Lemma keys_dict_set_congr {V W : Type} (k : algo) (v : V) (w : W) d d' :
  keys d = keys d' -> keys (dict_set k v d) = keys (dict_set k w d').
Proof.
  revert d'. induction d as [|[k1 v1] rest IH]; intros [|[k2 w2] rest'] H;
    simpl in *; try discriminate; [reflexivity|].
  injection H as -> Hrest.
  destruct (algo_eqb k2 k); simpl; f_equal; auto.
Qed.

Lemma dict_set_new {V : Type} (k : algo) (v : V) d :
  ~ In k (keys d) -> dict_set k v d = d ++ [(k, v)].
Proof.
  induction d as [|[k' v'] rest IH]; simpl; intro H; [reflexivity|].
  rewrite algo_eqb_neq by tauto. f_equal. apply IH. tauto.
Qed.

Lemma dict_get_set_same {V : Type} (k : algo) (v : V) d :
  dict_get k (dict_set k v d) = Some v.
Proof.
  induction d as [|[k' v'] rest IH]; simpl.
  - now rewrite algo_eqb_refl.
  - destruct (algo_eqb k' k) eqn:E; simpl; now rewrite E.
Qed.

Lemma dict_get_set_other {V : Type} (k a : algo) (v : V) d :
  a <> k -> dict_get a (dict_set k v d) = dict_get a d.
Proof.
  intro Hne. induction d as [|[k' v'] rest IH]; simpl.
  - apply algo_eqb_neq in Hne.
    destruct (algo_eqb k a) eqn:E; [|reflexivity].
    apply algo_eqb_eq in E. subst. now rewrite algo_eqb_refl in Hne.
  - destruct (algo_eqb k' k) eqn:E; simpl.
    + apply algo_eqb_eq in E. subst.
      now rewrite (algo_eqb_neq k a) by congruence.
    + now rewrite IH.
Qed.

Lemma dict_get_app_new {V : Type} (k : algo) (v : V) d :
  ~ In k (keys d) -> dict_get k (d ++ [(k, v)]) = Some v.
Proof.
  intro H. rewrite <- (dict_set_new k v d H). apply dict_get_set_same.
Qed.

(** *** The maximum *)

Lemma Qgtb_lt a b : Qgtb a b = true <-> b < a.
Proof.
  unfold Qgtb. rewrite negb_true_iff.
  destruct (Qle_bool a b) eqn:E.
  - apply Qle_bool_iff in E. split; [discriminate|].
    intro H. exfalso. eapply Qlt_not_le; eassumption.
  - split; [intros _|reflexivity]. apply Qnot_le_lt. intro H.
    apply Qle_bool_iff in H. congruence.
Qed.

Lemma Qgtb_le a b : Qgtb a b = false <-> a <= b.
Proof.
  unfold Qgtb. rewrite negb_false_iff. apply Qle_bool_iff.
Qed.

(** The running maximum splits what was scanned into strictly smaller
    items before it and items not larger after it. *)
Lemma fold_max_split {A : Type} (key : A -> Q) (rest : list A) :
  forall l1 best l2,
    (forall y, In y l1 -> key y < key best) ->
    (forall y, In y l2 -> key y <= key best) ->
    exists l1' l2',
      l1 ++ best :: l2 ++ rest
      = l1' ++ fold_left (fun b item =>
                            if Qgtb (key item) (key b) then item else b)
                         rest best :: l2' /\
      (forall y, In y l1' ->
                 key y < key (fold_left (fun b item =>
                            if Qgtb (key item) (key b) then item else b)
                         rest best)) /\
      (forall y, In y l2' ->
                 key y <= key (fold_left (fun b item =>
                            if Qgtb (key item) (key b) then item else b)
                         rest best)).
Proof.
  induction rest as [|x rest IH]; intros l1 best l2 H1 H2; simpl.
  - exists l1, l2. rewrite app_nil_r. auto.
  - destruct (Qgtb (key x) (key best)) eqn:E.
    + apply Qgtb_lt in E.
      destruct (IH (l1 ++ best :: l2) x []) as (l1' & l2' & Heq & Hlt & Hle).
      * intros y Hy. apply in_app_or in Hy as [Hy|[<-|Hy]].
        -- eapply Qlt_trans; [apply H1, Hy|exact E].
        -- exact E.
        -- eapply Qle_lt_trans; [apply H2, Hy|exact E].
      * intros y [].
      * exists l1', l2'. split; [|split; assumption].
        rewrite <- Heq. rewrite <- app_assoc. reflexivity.
    + apply Qgtb_le in E.
      destruct (IH l1 best (l2 ++ [x])) as (l1' & l2' & Heq & Hlt & Hle).
      * exact H1.
      * intros y Hy. apply in_app_or in Hy as [Hy|[<-|[]]]; auto.
      * exists l1', l2'. split; [|split; assumption].
        rewrite <- Heq. rewrite <- app_assoc. reflexivity.
Qed.

Lemma py_max_first_maximum {A : Type} (key : A -> Q) (items : list A) :
  items <> [] ->
  exists m l1 l2,
    py_max key items = Ok m /\
    items = l1 ++ m :: l2 /\
    (forall y, In y l1 -> key y < key m) /\
    (forall y, In y l2 -> key y <= key m).
Proof.
  destruct items as [|first rest]; [congruence|]. intros _.
  destruct (fold_max_split key rest [] first [])
    as (l1 & l2 & Heq & Hlt & Hle); try (intros y []).
  eexists. exists l1, l2. split; [reflexivity|]. auto.
Qed.

(** *** The loop *)

Lemma train_one_trains st name pipe p :
  outcome name = Some (pipe, p) ->
  train_one st name =
  {| trained_models := dict_set name pipe (trained_models st);
     results := dict_set name (entry_of (pipe, p)) (results st);
     feature_importances :=
       match importance_entry (model_obj pipe) (feat_names_of pipe) with
       | Some table => dict_set name table (feature_importances st)
       | None => feature_importances st
       end;
     warnings := warnings st |}.
Proof.
  unfold outcome, train_one. destruct (fit name) as [pipe'|e]; [|discriminate].
  destruct (predict pipe') as [p'|e]; [|discriminate].
  intro H. injection H as -> ->. reflexivity.
Qed.

Lemma train_one_fails st name :
  outcome name = None ->
  exists e, failure name = Some e /\ train_one st name = warn st name e.
Proof.
  unfold outcome, failure, train_one. destruct (fit name) as [pipe|e].
  - destruct (predict pipe) as [p|e]; [discriminate|]. eauto.
  - eauto.
Qed.

Lemma failure_outcome name e : failure name = Some e -> outcome name = None.
Proof.
  unfold failure, outcome. destruct (fit name) as [pipe|e']; [|reflexivity].
  destruct (predict pipe); [discriminate|reflexivity].
Qed.

Lemma outcome_trains name : trains name = true <-> exists r, outcome name = Some r.
Proof.
  unfold trains. destruct (outcome name) as [r|].
  - split; eauto.
  - split; [discriminate|intros [r H]; discriminate].
Qed.

Lemma fold_results_keys l : forall st a,
  In a (keys (results (fold_left train_one l st))) <->
  In a (keys (results st)) \/ (In a l /\ trains a = true).
Proof.
  induction l as [|x l IH]; intros st a; simpl; [tauto|].
  rewrite IH. destruct (outcome x) as [[pipe p]|] eqn:E.
  - rewrite (train_one_trains st x pipe p E); simpl.
    rewrite in_keys_dict_set.
    assert (trains x = true) by (apply outcome_trains; eauto).
    intuition (subst; auto).
  - destruct (train_one_fails st x E) as (e & _ & ->). simpl.
    assert (trains x = false) by (unfold trains; now rewrite E).
    intuition (subst; congruence).
Qed.

Lemma fold_keys_agree l : forall st,
  keys (trained_models st) = keys (results st) ->
  keys (trained_models (fold_left train_one l st))
  = keys (results (fold_left train_one l st)).
Proof.
  induction l as [|x l IH]; intros st H; simpl; [exact H|].
  apply IH. destruct (outcome x) as [[pipe p]|] eqn:E.
  - rewrite (train_one_trains st x pipe p E); simpl.
    now apply keys_dict_set_congr.
  - destruct (train_one_fails st x E) as (e & _ & ->). exact H.
Qed.

Lemma fold_importance_keys l : forall st,
  incl (keys (feature_importances st)) (keys (results st)) ->
  incl (keys (feature_importances (fold_left train_one l st)))
       (keys (results (fold_left train_one l st))).
Proof.
  induction l as [|x l IH]; intros st H; simpl; [exact H|].
  apply IH. destruct (outcome x) as [[pipe p]|] eqn:E.
  - rewrite (train_one_trains st x pipe p E); simpl.
    intros a Ha. apply in_keys_dict_set.
    destruct (importance_entry (model_obj pipe) (feat_names_of pipe)).
    + apply in_keys_dict_set in Ha as [Ha|Ha]; auto.
    + auto.
  - destruct (train_one_fails st x E) as (e & _ & ->). exact H.
Qed.

Lemma fold_warnings_kept l : forall st w,
  In w (warnings st) -> In w (warnings (fold_left train_one l st)).
Proof.
  induction l as [|x l IH]; intros st w H; simpl; [exact H|].
  apply IH. destruct (outcome x) as [[pipe p]|] eqn:E.
  - now rewrite (train_one_trains st x pipe p E).
  - destruct (train_one_fails st x E) as (e & _ & ->). simpl.
    apply in_or_app. now left.
Qed.

Lemma fold_warns l : forall st a e,
  In a l -> failure a = Some e ->
  In (training_warning a e) (warnings (fold_left train_one l st)).
Proof.
  induction l as [|x l IH]; intros st a e Hin Hf; simpl; [destruct Hin|].
  destruct Hin as [->|Hin].
  - apply fold_warnings_kept.
    destruct (train_one_fails st a (failure_outcome a e Hf)) as (e' & He' & ->).
    assert (e' = e) by congruence. subst. simpl.
    apply in_or_app. right. now left.
  - now apply IH.
Qed.

Lemma fold_stored l : forall st a pipe p,
  outcome a = Some (pipe, p) ->
  (In a l \/
   (dict_get a (trained_models st) = Some pipe /\
    dict_get a (results st) = Some (entry_of (pipe, p)))) ->
  dict_get a (trained_models (fold_left train_one l st)) = Some pipe /\
  dict_get a (results (fold_left train_one l st)) = Some (entry_of (pipe, p)).
Proof.
  induction l as [|x l IH]; intros st a pipe p Ha H; simpl.
  - destruct H as [[]|H]. exact H.
  - apply IH; [exact Ha|].
    destruct (algo_eqb x a) eqn:Exa.
    + apply algo_eqb_eq in Exa. subst x. right.
      rewrite (train_one_trains st a pipe p Ha); simpl.
      now rewrite !dict_get_set_same.
    + assert (Hne : a <> x).
      { intros ->. now rewrite algo_eqb_refl in Exa. }
      destruct H as [[->|Hin]|Hst]; [congruence|now left|right].
      destruct (outcome x) as [[pipe' p']|] eqn:E.
      * rewrite (train_one_trains st x pipe' p' E); simpl.
        now rewrite !dict_get_set_other by exact Hne.
      * destruct (train_one_fails st x E) as (e & _ & ->). exact Hst.
Qed.

(** With distinct selections the dictionaries are filled in the order of
    the selection list. *)
Lemma fold_results_order l : forall st,
  NoDup l ->
  (forall a, In a l -> ~ In a (keys (results st))) ->
  keys (trained_models st) = keys (results st) ->
  results (fold_left train_one l st)
  = results st ++ map (fun x => (fst x, entry_of (snd x))) (trained_entries l)
  /\
  trained_models (fold_left train_one l st)
  = trained_models st ++ map (fun x => (fst x, fst (snd x))) (trained_entries l).
Proof.
  induction l as [|x l IH]; intros st Hnd Hfresh Hkeys; simpl.
  - now rewrite !app_nil_r.
  - inversion Hnd as [|? ? Hx Hnd']; subst.
    destruct (outcome x) as [[pipe p]|] eqn:E.
    + destruct (IH (train_one st x) Hnd') as [Hr Ht].
      * intros a Ha. rewrite (train_one_trains st x pipe p E); simpl.
        rewrite in_keys_dict_set. intros [->|Hin]; [contradiction|].
        apply (Hfresh a); simpl; auto.
      * rewrite (train_one_trains st x pipe p E); simpl.
        now apply keys_dict_set_congr.
      * rewrite Hr, Ht, (train_one_trains st x pipe p E); simpl.
        rewrite !dict_set_new; [now rewrite <- !app_assoc|..];
          try rewrite Hkeys; apply Hfresh; now left.
    + destruct (train_one_fails st x E) as (e & _ & Hw).
      rewrite Hw.
      apply (IH (warn st x e) Hnd'); simpl; [|exact Hkeys].
      intros a Ha. apply Hfresh. now right.
Qed.

Lemma trained_entries_split l : forall l1 x l2,
  trained_entries l = l1 ++ x :: l2 ->
  exists a1 a2,
    l = a1 ++ fst x :: a2 /\ outcome (fst x) = Some (snd x) /\
    trained_entries a1 = l1 /\ trained_entries a2 = l2.
Proof.
  induction l as [|a l IH]; intros l1 x l2 H; simpl in H.
  - destruct l1; discriminate.
  - destruct (outcome a) as [r|] eqn:E.
    + destruct l1 as [|y l1]; simpl in H.
      * injection H as <- <-. exists [], l. simpl. now rewrite E.
      * injection H as <- H. destruct (IH _ _ _ H) as (a1 & a2 & -> & Ho & H1 & H2).
        exists (a :: a1), a2. simpl. rewrite E, H1. auto.
    + destruct (IH _ _ _ H) as (a1 & a2 & -> & Ho & H1 & H2).
      exists (a :: a1), a2. simpl. rewrite E. auto.
Qed.

Lemma trained_entries_in l a r :
  In a l -> outcome a = Some r -> In (a, r) (trained_entries l).
Proof.
  induction l as [|x l IH]; simpl; [tauto|].
  intros [->|Hin] Ho.
  - rewrite Ho. now left.
  - destruct (outcome x); [right|]; auto.
Qed.

Lemma trained_entries_keys l x :
  In x (trained_entries l) -> In (fst x) l /\ outcome (fst x) = Some (snd x).
Proof.
  induction l as [|a l IH]; simpl; [tauto|].
  destruct (outcome a) as [r|] eqn:E.
  - intros [<-|Hin]; [simpl; auto|]. destruct (IH Hin); auto.
  - intro Hin. destruct (IH Hin); auto.
Qed.

Lemma py_max_map {A B : Type} (f : A -> B) (key : B -> Q) (l : list A) :
  py_max key (map f l)
  = match py_max (fun x => key (f x)) l with
    | Ok m => Ok (f m)
    | Raise e => Raise e
    end.
Proof.
  destruct l as [|x l]; simpl; [reflexivity|]. f_equal.
  revert x. induction l as [|y l IH]; intro x; simpl; [reflexivity|].
  rewrite <- IH. now destruct (Qgtb (key (f y)) (key (f x))).
Qed.

Lemma sorted_after {A : Type} (R : A -> A -> Prop) l1 x l2 :
  StronglySorted R (l1 ++ x :: l2) -> Forall (R x) l2.
Proof.
  induction l1 as [|a l1 IH]; simpl; intro H;
    apply StronglySorted_inv in H as [H1 H2]; auto.
Qed.

Lemma outcome_of_calls name pipe p :
  fit name = Ok pipe -> predict pipe = Ok p -> outcome name = Some (pipe, p).
Proof. unfold outcome. now intros -> ->. Qed.

Lemma failure_of_calls name e :
  fit name = Raise e \/ (exists pipe, fit name = Ok pipe /\ predict pipe = Raise e) ->
  failure name = Some e.
Proof.
  unfold failure. intros [->|(pipe & -> & ->)]; reflexivity.
Qed.

Lemma train_selected_order algos :
  NoDup algos ->
  results (train_selected algos)
  = map (fun x => (fst x, entry_of (snd x))) (trained_entries algos).
Proof.
  intro Hnd. unfold train_selected.
  destruct (fold_results_order algos empty_run Hnd) as [Hr _]; auto.
Qed.

Lemma algo_name_injective a b : algo_name a = algo_name b -> a = b.
Proof.
  destruct a, b; simpl; intro H; try reflexivity; discriminate H.
Qed.

(** The names of the catalog, as the multiselect and the [estimators]
    dictionary spell them. *)
Example catalog_names :
  map algo_name catalog
  = ["Logistic Regression"; "Random Forest"; "Gradient Boosting";
     "Decision Tree"; "SVM"; "KNN"; "Naive Bayes"]%string.
Proof. reflexivity. Qed.

(** C4: an algorithm whose [fit] or [predict] raises is reported in the
    warning "Training failed for <its name>: <the exception's text>",
    whose name belongs to no other algorithm, and gets no entry in any of
    the three dictionaries; every other selected algorithm whose calls
    return is stored with its pipeline and accuracy; the store that
    replaces the session's is consistent: the models and the results have
    the same keys, every importance table belongs to a stored result, and
    every key was selected. *)
Theorem failure_isolation (algos : list algo) (name : algo) (e : exn)
        (Hsel : In name algos)
        (Hfail : fit name = Raise e \/
                 exists pipe, fit name = Ok pipe /\ predict pipe = Raise e) :
  ~ In name (keys (trained_models (train_selected algos))) /\
  ~ In name (keys (results (train_selected algos))) /\
  ~ In name (keys (feature_importances (train_selected algos))) /\
  In ("Training failed for " ++ algo_name name ++ ": " ++ str_exn e)%string
     (warnings (train_selected algos)) /\
  (forall other, algo_name other = algo_name name -> other = name) /\
  (forall other pipe p,
      In other algos -> fit other = Ok pipe -> predict pipe = Ok p ->
      dict_get other (trained_models (train_selected algos)) = Some pipe /\
      dict_get other (results (train_selected algos))
      = Some {| accuracy := accuracy_score p; preds := p |}) /\
  keys (trained_models (train_selected algos))
  = keys (results (train_selected algos)) /\
  incl (keys (feature_importances (train_selected algos)))
       (keys (results (train_selected algos))) /\
  incl (keys (results (train_selected algos))) algos /\
  press_train algos
  = {| ss_trained_models := Some (trained_models (train_selected algos));
       ss_results := Some (results (train_selected algos));
       ss_feature_importances :=
         Some (feature_importances (train_selected algos)) |}.
Proof.
  apply failure_of_calls in Hfail.
  assert (Hkeys : keys (trained_models (train_selected algos))
                  = keys (results (train_selected algos)))
    by (apply fold_keys_agree; reflexivity).
  assert (Himp : incl (keys (feature_importances (train_selected algos)))
                      (keys (results (train_selected algos))))
    by (apply fold_importance_keys; intros a []).
  assert (Hout : ~ In name (keys (results (train_selected algos)))).
  { unfold train_selected. rewrite fold_results_keys. simpl.
    intros [[]|[_ Ht]]. unfold trains in Ht.
    now rewrite (failure_outcome name e Hfail) in Ht. }
  split; [now rewrite Hkeys|]. split; [exact Hout|].
  split; [intro H; apply Hout, Himp, H|].
  split; [now apply fold_warns|].
  split; [intro other; apply algo_name_injective|].
  split.
  { intros other pipe p Hin Hfit Hpred.
    apply (fold_stored algos empty_run other pipe p);
      [now apply outcome_of_calls|now left]. }
  split; [exact Hkeys|]. split; [exact Himp|].
  split; [|reflexivity].
  intros a Ha. unfold train_selected in Ha.
  apply fold_results_keys in Ha as [[]|[Ha _]]. exact Ha.
Qed.

(** C2 (amended): after a run in which some selected algorithm trained,
    "Save best model" writes to best_dropout_model.joblib the pipeline of
    the first algorithm, in the order of the selection list (the iteration
    order of the results dictionary), whose accuracy is maximal; when the
    selection is listed in catalog order this is the tie-break by catalog
    order. *)
Theorem save_best_picks_first_maximum
        (algos : list algo) (files : string -> option pipeline)
        (Hdistinct : NoDup algos)
        (Hsome : exists a, In a algos /\ trains a = true) :
  exists best pipe p l1 l2,
    fit best = Ok pipe /\ predict pipe = Ok p /\
    save_best (press_train algos) files
    = Ok (dump files best_model_file pipe, Some (saved_message best)) /\
    dump files best_model_file pipe "best_dropout_model.joblib" = Some pipe /\
    algos = l1 ++ best :: l2 /\
    (forall a pa qa, In a l1 -> fit a = Ok pa -> predict pa = Ok qa ->
                     accuracy_score qa < accuracy_score p) /\
    (forall a pa qa, In a l2 -> fit a = Ok pa -> predict pa = Ok qa ->
                     accuracy_score qa <= accuracy_score p) /\
    (StronglySorted (fun a b => (catalog_index a < catalog_index b)%nat) algos ->
     ties_by_catalog_order (results (train_selected algos)) best).
Proof.
  destruct Hsome as (a0 & Hin0 & Ht0).
  apply outcome_trains in Ht0 as [r0 Hr0].
  pose proof (trained_entries_in algos a0 r0 Hin0 Hr0) as Hne.
  destruct (py_max_first_maximum
              (fun x : algo * (pipeline * preds_t) => accuracy_score (snd (snd x)))
              (trained_entries algos))
    as (m & t1 & t2 & Hmax & Hsplit & Hlt & Hle).
  { intro E. rewrite E in Hne. exact Hne. }
  destruct (trained_entries_split algos t1 m t2 Hsplit)
    as (a1 & a2 & Halgos & Hm & Ht1 & Ht2).
  destruct m as [best [pipe p]]; simpl in *.
  assert (Hcalls : fit best = Ok pipe /\ predict pipe = Ok p).
  { unfold outcome in Hm. destruct (fit best) as [pipe'|]; [|discriminate].
    destruct (predict pipe') as [p'|] eqn:Ep; [|discriminate].
    injection Hm as -> ->. auto. }
  destruct Hcalls as [Hfit Hpred].
  assert (Hbest : In best algos).
  { rewrite Halgos. apply in_or_app. right. now left. }
  assert (Hl1 : forall a pa qa, In a a1 -> fit a = Ok pa -> predict pa = Ok qa ->
                                accuracy_score qa < accuracy_score p).
  { intros a pa qa Ha Hfa Hpa.
    apply (Hlt (a, (pa, qa))). rewrite <- Ht1.
    apply trained_entries_in; [exact Ha|now apply outcome_of_calls]. }
  assert (Hl2 : forall a pa qa, In a a2 -> fit a = Ok pa -> predict pa = Ok qa ->
                                accuracy_score qa <= accuracy_score p).
  { intros a pa qa Ha Hfa Hpa.
    apply (Hle (a, (pa, qa))). rewrite <- Ht2.
    apply trained_entries_in; [exact Ha|now apply outcome_of_calls]. }
  exists best, pipe, p, a1, a2.
  split; [exact Hfit|]. split; [exact Hpred|]. split.
  { unfold save_best, press_train; simpl.
    rewrite (train_selected_order algos Hdistinct), py_max_map.
    cbn [accuracy snd fst entry_of]. rewrite Hmax. simpl.
    destruct (fold_stored algos empty_run best pipe p Hm (or_introl Hbest))
      as [Hget _].
    unfold train_selected. now rewrite Hget. }
  split; [reflexivity|]. split; [exact Halgos|].
  split; [exact Hl1|]. split; [exact Hl2|].
  intros Hsorted a ea eb Ha Hb Heq.
  rewrite (train_selected_order algos Hdistinct) in Ha, Hb.
  apply in_map_iff in Ha as ([a' [pa qa]] & Ea & Ha).
  apply in_map_iff in Hb as ([b' [pb qb]] & Eb & Hb).
  injection Ea as -> <-. injection Eb as -> <-.
  apply trained_entries_keys in Ha as [Ha Hoa].
  apply trained_entries_keys in Hb as [_ Hob]. simpl in *.
  assert (pb = pipe /\ qb = p) as [-> ->] by (split; congruence).
  unfold outcome in Hoa. destruct (fit a) as [pa'|] eqn:Efa; [|discriminate].
  destruct (predict pa') as [qa'|] eqn:Epa; [|discriminate].
  injection Hoa as -> ->.
  rewrite Halgos in Ha. apply in_app_or in Ha as [Ha|[<-|Ha]].
  - exfalso. specialize (Hl1 a pa qa Ha Efa Epa).
    rewrite Heq in Hl1. exact (Qlt_irrefl _ Hl1).
  - apply Nat.le_refl.
  - rewrite Halgos in Hsorted. apply sorted_after in Hsorted.
    rewrite Forall_forall in Hsorted. apply Nat.lt_le_incl. now apply Hsorted.
Qed.

(** C10: "Save best model" on a results dictionary that exists but is
    empty takes the maximum of an empty sequence and raises, where the
    comparison panel shows its no-results notice; this is the session a
    run leaves when every selected algorithm failed. *)
Theorem save_best_raises_on_empty_results
        (algos : list algo) (files : string -> option pipeline)
        (Hall : forall a, In a algos ->
                  exists e, fit a = Raise e \/
                            exists pipe, fit a = Ok pipe /\ predict pipe = Raise e) :
  ss_results (press_train algos) = Some [] /\
  ss_trained_models (press_train algos) = Some [] /\
  save_best (press_train algos) files
  = Raise (ValueError "max() arg is an empty sequence") /\
  comparison_panel (press_train algos) = NoResultsInfo /\
  (forall ss, ss_results ss = Some [] ->
     save_best ss files = Raise (ValueError "max() arg is an empty sequence")).
Proof.
  assert (Hempty : keys (results (train_selected algos)) = []).
  { destruct (keys (results (train_selected algos))) as [|a ks] eqn:E;
      [reflexivity|exfalso].
    assert (Ha : In a (keys (results (train_selected algos))))
      by (rewrite E; now left).
    unfold train_selected in Ha.
    apply fold_results_keys in Ha as [[]|[Ha Ht]].
    destruct (Hall a Ha) as [e He]. apply failure_of_calls in He.
    unfold trains in Ht. now rewrite (failure_outcome a e He) in Ht. }
  assert (Hres : results (train_selected algos) = []).
  { destruct (results (train_selected algos)); [reflexivity|discriminate]. }
  assert (Hmod : trained_models (train_selected algos) = []).
  { pose proof (fold_keys_agree algos empty_run eq_refl) as Hk.
    fold (train_selected algos) in Hk. rewrite Hempty in Hk.
    destruct (trained_models (train_selected algos)); [reflexivity|discriminate]. }
  unfold press_train, save_best, comparison_panel; simpl.
  rewrite Hres, Hmod. simpl.
  repeat split. intros ss ->. reflexivity.
Qed.

(* ------------------------------------------------------------------ *)
(** *** Further facts about a run *)

(** The algorithm gets an importance table: it trained and its learner
    exposes importances or coefficients. *)
Definition charted (name : algo) : bool :=
  match outcome name with
  | Some (pipe, _) =>
      match extract_importance (model_obj pipe) with
      | Some _ => true
      | None => false
      end
  | None => false
  end.

Lemma fold_warnings_count l : forall st,
  length (warnings (fold_left train_one l st))
  = (length (warnings st) + length (filter (fun a => negb (trains a)) l))%nat.
Proof.
  induction l as [|x l IH]; intro st; simpl; [lia|].
  rewrite IH. unfold trains at 2.
  destruct (outcome x) as [[pipe p]|] eqn:E; simpl.
  - now rewrite (train_one_trains st x pipe p E).
  - destruct (train_one_fails st x E) as (e & _ & ->). simpl.
    rewrite length_app. simpl. lia.
Qed.

Lemma trained_entries_names l : map fst (trained_entries l) = filter trains l.
Proof.
  induction l as [|x l IH]; simpl; [reflexivity|].
  unfold trains at 1. destruct (outcome x); simpl; now rewrite IH.
Qed.

Lemma filter_split_length {A : Type} (f : A -> bool) (l : list A) :
  (length (filter f l) + length (filter (fun a => negb (f a)) l))%nat
  = length l.
Proof.
  induction l as [|x l IH]; simpl; [reflexivity|].
  destruct (f x); simpl; lia.
Qed.

Lemma fold_importance_in l : forall st a,
  In a (keys (feature_importances (fold_left train_one l st))) <->
  In a (keys (feature_importances st)) \/ (In a l /\ charted a = true).
Proof.
  induction l as [|x l IH]; intros st a; simpl; [tauto|].
  rewrite IH.
  destruct (outcome x) as [[pipe p]|] eqn:E.
  - rewrite (train_one_trains st x pipe p E); simpl.
    unfold importance_entry.
    destruct (extract_importance (model_obj pipe)) as [imp|] eqn:Ei; simpl.
    + rewrite in_keys_dict_set.
      assert (charted x = true) by (unfold charted; now rewrite E, Ei).
      intuition (subst; auto).
    + assert (charted x = false) by (unfold charted; now rewrite E, Ei).
      intuition (subst; congruence).
  - destruct (train_one_fails st x E) as (e & _ & ->). simpl.
    assert (charted x = false) by (unfold charted; now rewrite E).
    intuition (subst; congruence).
Qed.

Lemma fold_importance_stored l : forall st a pipe p imp,
  outcome a = Some (pipe, p) ->
  extract_importance (model_obj pipe) = Some imp ->
  (In a l \/
   dict_get a (feature_importances st)
   = Some (importance_table (feat_names_of pipe) imp)) ->
  dict_get a (feature_importances (fold_left train_one l st))
  = Some (importance_table (feat_names_of pipe) imp).
Proof.
  induction l as [|x l IH]; intros st a pipe p imp Ha Hi H; simpl.
  - destruct H as [[]|H]. exact H.
  - apply (IH _ a pipe p imp Ha Hi).
    destruct (algo_eqb x a) eqn:Exa.
    + apply algo_eqb_eq in Exa. subst x. right.
      rewrite (train_one_trains st a pipe p Ha); simpl.
      unfold importance_entry. rewrite Hi. simpl.
      apply dict_get_set_same.
    + assert (Hne : a <> x).
      { intros ->. now rewrite algo_eqb_refl in Exa. }
      destruct H as [[->|Hin]|Hst]; [congruence|now left|right].
      destruct (outcome x) as [[pipe' p']|] eqn:E.
      * rewrite (train_one_trains st x pipe' p' E); simpl.
        destruct (importance_entry (model_obj pipe') (feat_names_of pipe'));
          [now rewrite dict_get_set_other by exact Hne|exact Hst].
      * destruct (train_one_fails st x E) as (e & _ & ->). exact Hst.
Qed.

(** X6: a run over distinct selections accounts for every one of them:
    the models and the results list exactly the algorithms that trained,
    in the order of the selection; every other selection left one
    warning; the comparison panel then shows one card per trained
    algorithm in that order, or its notice when none trained. *)
Theorem run_accounts_for_selection (algos : list algo)
        (Hdistinct : NoDup algos) :
  keys (trained_models (train_selected algos)) = filter trains algos /\
  keys (results (train_selected algos)) = filter trains algos /\
  length (warnings (train_selected algos))
  = length (filter (fun a => negb (trains a)) algos) /\
  (length (trained_models (train_selected algos))
   + length (warnings (train_selected algos)))%nat = length algos /\
  comparison_panel (press_train algos)
  = match filter trains algos with
    | [] => NoResultsInfo
    | _ :: _ => Charts (filter trains algos)
    end.
Proof.
  destruct (fold_results_order algos empty_run Hdistinct) as [Hr Hm];
    [intros a _ []|reflexivity|].
  fold (train_selected algos) in Hr, Hm. simpl in Hr, Hm.
  assert (Hkr : keys (results (train_selected algos)) = filter trains algos).
  { rewrite Hr. unfold keys. rewrite map_map. simpl.
    apply trained_entries_names. }
  assert (Hkm : keys (trained_models (train_selected algos))
                = filter trains algos).
  { rewrite Hm. unfold keys. rewrite map_map. simpl.
    apply trained_entries_names. }
  assert (Hw : length (warnings (train_selected algos))
               = length (filter (fun a => negb (trains a)) algos)).
  { unfold train_selected. now rewrite fold_warnings_count. }
  split; [exact Hkm|]. split; [exact Hkr|]. split; [exact Hw|]. split.
  - rewrite Hw, <- (filter_split_length trains algos), <- Hkm.
    unfold keys. now rewrite length_map.
  - unfold comparison_panel, press_train. simpl. rewrite <- Hkr.
    now destruct (results (train_selected algos)).
Qed.

(** X7: an importance table is stored for an algorithm exactly when it was
    selected, trained, and its learner exposes native importances or
    coefficients; the stored table is the aligned, sorted table of its
    scores against its feature names. *)
Theorem importance_stored_iff (algos : list algo) (name : algo) :
  (In name (keys (feature_importances (train_selected algos))) <->
   In name algos /\
   exists pipe p imp,
     fit name = Ok pipe /\ predict pipe = Ok p /\
     extract_importance (model_obj pipe) = Some imp) /\
  (forall pipe p imp,
     In name algos -> fit name = Ok pipe -> predict pipe = Ok p ->
     extract_importance (model_obj pipe) = Some imp ->
     dict_get name (feature_importances (train_selected algos))
     = Some (importance_table (feat_names_of pipe) imp)).
Proof.
  split.
  - unfold train_selected. rewrite fold_importance_in. simpl.
    unfold charted, outcome. split.
    + intros [[]|[Hin Hc]]. split; [exact Hin|].
      destruct (fit name) as [pipe|] eqn:Ef; [|discriminate].
      destruct (predict pipe) as [p|] eqn:Ep; [|discriminate].
      destruct (extract_importance (model_obj pipe)) as [imp|] eqn:E;
        [|discriminate].
      exists pipe, p, imp. repeat split; assumption || reflexivity.
    + intros (Hin & pipe & p & imp & -> & Hp & Hi). right.
      split; [exact Hin|]. now rewrite Hp, Hi.
  - intros pipe p imp Hin Hfit Hpred Hi.
    apply (fold_importance_stored algos empty_run name pipe p imp);
      [now apply outcome_of_calls|exact Hi|now left].
Qed.

Lemma run_of_failures_is_empty (algos : list algo) :
  (forall a, In a algos -> trains a = false) ->
  trained_models (train_selected algos) = [] /\
  results (train_selected algos) = [].
Proof.
  intro Hall.
  assert (Hres : results (train_selected algos) = []).
  { destruct (results (train_selected algos)) as [|[a e] rest] eqn:E;
      [reflexivity|exfalso].
    assert (Ha : In a (keys (results (train_selected algos))))
      by (rewrite E; now left).
    unfold train_selected in Ha.
    apply fold_results_keys in Ha as [[]|[Ha Ht]].
    rewrite (Hall a Ha) in Ht. discriminate Ht. }
  split; [|exact Hres].
  pose proof (fold_keys_agree algos empty_run eq_refl) as Hk.
  fold (train_selected algos) in Hk. rewrite Hres in Hk.
  destruct (trained_models (train_selected algos)); [reflexivity|discriminate].
Qed.

End Run.

Arguments accuracy {preds_t} _.
Arguments preds {preds_t} _.
Arguments trained_models {pipeline preds_t} _.
Arguments results {pipeline preds_t} _.
Arguments feature_importances {pipeline preds_t} _.
Arguments warnings {pipeline preds_t} _.
Arguments ss_trained_models {pipeline preds_t} _.
Arguments ss_results {pipeline preds_t} _.
Arguments ss_feature_importances {pipeline preds_t} _.

(** *** The concrete run *)

Definition demo_run (algos : list algo) : run_state algo (list Z) :=
  train_selected algo (list Z) demo_fit demo_predict demo_accuracy
                 demo_model demo_columns [] demo_columns
                 (fun _ => Ok []) demo_str_exn algos.

Definition demo_session (algos : list algo) : session algo (list Z) :=
  press_train algo (list Z) demo_fit demo_predict demo_accuracy
              demo_model demo_columns [] demo_columns
              (fun _ => Ok []) demo_str_exn algos.

Definition no_files : string -> option algo := fun _ => None.

Lemma failure_isolation_witness :
  ~ In SVM (keys (results (demo_run [LogisticRegression; SVM; RandomForest])))
  /\
  In ("Training failed for SVM: Input X contains NaN.")%string
     (warnings (demo_run [LogisticRegression; SVM; RandomForest])) /\
  keys (results (demo_run [LogisticRegression; SVM; RandomForest]))
  = [LogisticRegression; RandomForest].
Proof.
  destruct (failure_isolation algo (list Z) demo_fit demo_predict
              demo_accuracy demo_model demo_columns [] demo_columns
              (fun _ => Ok []) demo_str_exn [LogisticRegression; SVM; RandomForest] SVM
              (LibraryError "Input X contains NaN."))
    as (_ & Hres & _ & Hwarn & _).
  - simpl. auto.
  - left. reflexivity.
  - split; [exact Hres|]. split; [exact Hwarn|reflexivity].
Defined.

(** C2, counterexample: the random forest is selected before logistic
    regression, both reach accuracy 4/5, and the random forest is saved,
    although logistic regression comes first in the catalog. *)
Lemma tie_is_not_broken_by_catalog_order :
  exists files,
    save_best algo (list Z)
              (demo_session [RandomForest; LogisticRegression]) no_files
    = Ok (files, Some (saved_message RandomForest)) /\
    files best_model_file = Some RandomForest /\
    dict_get LogisticRegression
             (results (demo_run [RandomForest; LogisticRegression]))
    = Some {| accuracy := 4 / 5; preds := [0; 1; 0; 0; 0]%Z |} /\
    dict_get RandomForest
             (results (demo_run [RandomForest; LogisticRegression]))
    = Some {| accuracy := 4 / 5; preds := [0; 1; 0; 0; 0]%Z |} /\
    (catalog_index LogisticRegression < catalog_index RandomForest)%nat /\
    ~ ties_by_catalog_order (list Z)
        (results (demo_run [RandomForest; LogisticRegression])) RandomForest.
Proof.
  eexists. split; [reflexivity|]. split; [reflexivity|].
  split; [reflexivity|]. split; [reflexivity|]. split; [simpl; lia|].
  intro H.
  specialize (H LogisticRegression
                {| accuracy := 4 / 5; preds := [0; 1; 0; 0; 0]%Z |}
                {| accuracy := 4 / 5; preds := [0; 1; 0; 0; 0]%Z |}).
  simpl in H.
  assert (Hle : (1 <= 0)%nat); [|lia].
  apply H; [right; left; reflexivity|left; reflexivity|reflexivity].
Qed.

Lemma save_best_picks_first_maximum_witness :
  exists best pipe,
    save_best algo (list Z)
              (demo_session [DecisionTree; RandomForest; LogisticRegression])
              no_files
    = Ok (dump no_files best_model_file pipe, Some (saved_message best)).
Proof.
  destruct (save_best_picks_first_maximum algo (list Z) demo_fit demo_predict
              demo_accuracy demo_model demo_columns [] demo_columns
              (fun _ => Ok []) demo_str_exn
              [DecisionTree; RandomForest; LogisticRegression] no_files)
    as (best & pipe & p & l1 & l2 & _ & _ & Hsave & _).
  - repeat constructor; simpl; intuition discriminate.
  - exists RandomForest. split; [simpl; auto|reflexivity].
  - exists best, pipe. exact Hsave.
Defined.

Lemma save_best_raises_on_empty_results_witness :
  save_best algo (list Z) (demo_session [SVM; KNN]) no_files
  = Raise (ValueError "max() arg is an empty sequence").
Proof.
  destruct (save_best_raises_on_empty_results algo (list Z) demo_fit
              demo_predict demo_accuracy demo_model demo_columns []
              demo_columns (fun _ => Ok []) demo_str_exn [SVM; KNN] no_files)
    as (_ & _ & Hsave & _ & _).
  - intros a [<-|[<-|[]]].
    + exists (LibraryError "Input X contains NaN."). left. reflexivity.
    + exists (ValueError "Expected n_neighbors <= n_samples_fit").
      right. exists KNN. split; reflexivity.
  - exact Hsave.
Defined.

Lemma run_accounts_for_selection_witness :
  keys (results (demo_run [DecisionTree; SVM; RandomForest; KNN]))
  = [DecisionTree; RandomForest] /\
  length (warnings (demo_run [DecisionTree; SVM; RandomForest; KNN])) = 2%nat.
Proof.
  destruct (run_accounts_for_selection algo (list Z) demo_fit demo_predict
              demo_accuracy demo_model demo_columns [] demo_columns
              (fun _ => Ok []) demo_str_exn [DecisionTree; SVM; RandomForest; KNN])
    as (_ & Hres & Hwarn & _).
  - repeat constructor; simpl; intuition discriminate.
  - split; [exact Hres|exact Hwarn].
Defined.

End Training.
(* ================================================================== *)
(** ** Importance charts of the comparison panel (lines 240-257) *)

(** Rows of a chart, smaller score first
    ([sort_values('importance', ascending=True)]). *)
Module ChartOrder <: Orders.TotalLeBool.
Definition t := (string * Q)%type.
Definition leb (a b : t) : bool := Qle_bool (snd a) (snd b).
Definition leb_total :
  forall a1 a2 : t, is_true (leb a1 a2) \/ is_true (leb a2 a1) :=
  fun a1 a2 =>
    match Qlt_le_dec (snd a1) (snd a2) with
    | left Hlt => or_introl (proj2 (Qle_bool_iff _ _) (Qlt_le_weak _ _ Hlt))
    | right Hle => or_intror (proj2 (Qle_bool_iff _ _) Hle)
    end.
End ChartOrder.

Module ChartSort := Mergesort.Sort ChartOrder.

Module Report.
Import Importance.

(** Line 244: [df_imp.head(15).sort_values('importance', ascending=True)]. *)
Definition top_features (df_imp : importance_table_t) : importance_table_t :=
  ChartSort.sort (firstn 15 df_imp).

Definition sample_table : importance_table_t :=
  importance_table ["Age"; "CGPA"; "Hours"]%string [1 # 4; 1 # 2; 1 # 8].

(* ------------------------------------------------------------------ *)

Lemma chart_leb_trans : Transitive (fun a b => is_true (ChartOrder.leb a b)).
Proof.
  intros a b c Hab Hbc. unfold ChartOrder.leb, is_true in *.
  rewrite Qle_bool_iff in *. eapply Qle_trans; eassumption.
Qed.

Lemma strongly_sorted_weaken {A : Type} (R R' : A -> A -> Prop) l :
  (forall a b, R a b -> R' a b) -> StronglySorted R l -> StronglySorted R' l.
Proof.
  intros HR H. induction H as [|a l _ IH Hall]; constructor; [exact IH|].
  apply Forall_forall. intros b Hb. rewrite Forall_forall in Hall. auto.
Qed.

Lemma sorted_across {A : Type} (R : A -> A -> Prop) l1 l2 :
  StronglySorted R (l1 ++ l2) ->
  forall a b, In a l1 -> In b l2 -> R a b.
Proof.
  induction l1 as [|x l1 IH]; simpl; intros H a b Ha Hb; [destruct Ha|].
  apply StronglySorted_inv in H as [Hrest Hall].
  destruct Ha as [<-|Ha].
  - rewrite Forall_forall in Hall. apply Hall, in_or_app. now right.
  - now apply IH.
Qed.

(** X8: a chart shows the first fifteen rows of its table, at most
    fifteen, re-sorted by non-decreasing score; since the table is sorted
    by non-increasing score, no feature left out has a larger score than
    one that is shown. *)
Theorem top_features_are_the_largest (table : importance_table_t)
        (Hsorted : non_increasing table) :
  length (top_features table) = Nat.min 15 (length table) /\
  Permutation (firstn 15 table) (top_features table) /\
  StronglySorted (fun a b => snd a <= snd b) (top_features table) /\
  (forall shown omitted,
     In shown (top_features table) -> In omitted (skipn 15 table) ->
     snd omitted <= snd shown).
Proof.
  unfold top_features.
  pose proof (ChartSort.Permuted_sort (firstn 15 table)) as Hperm.
  split.
  { rewrite <- (Permutation_length Hperm). apply length_firstn. }
  split; [exact Hperm|]. split.
  - apply (strongly_sorted_weaken (fun a b => is_true (ChartOrder.leb a b))).
    + intros a b Hab. apply Qle_bool_iff. exact Hab.
    + apply ChartSort.StronglySorted_sort, chart_leb_trans.
  - intros shown omitted Hshown Hom.
    apply (Permutation_in _ (Permutation_sym Hperm)) in Hshown.
    unfold non_increasing in Hsorted.
    rewrite <- (firstn_skipn 15 table) in Hsorted.
    exact (sorted_across _ _ _ Hsorted shown omitted Hshown Hom).
Qed.

Lemma top_features_are_the_largest_witness :
  top_features sample_table
  = [("Hours"%string, 1 # 8); ("Age"%string, 1 # 4); ("CGPA"%string, 1 # 2)]
  /\ length (top_features sample_table) = 3%nat.
Proof.
  destruct (top_features_are_the_largest sample_table) as (Hlen & _).
  - repeat constructor; simpl; discriminate.
  - split; [reflexivity|exact Hlen].
Defined.

End Report.
(* ================================================================== *)
(** ** Prediction form (lines 264-278) *)

(** Ascending order on numbers, for the median. *)
Module NumberOrder <: Orders.TotalLeBool.
Definition t := Q.
Definition leb := Qle_bool.
Definition leb_total :
  forall a1 a2 : Q, is_true (leb a1 a2) \/ is_true (leb a2 a1) :=
  fun a1 a2 =>
    match Qlt_le_dec a1 a2 with
    | left Hlt => or_introl (proj2 (Qle_bool_iff _ _) (Qlt_le_weak _ _ Hlt))
    | right Hle => or_intror (proj2 (Qle_bool_iff _ _) Hle)
    end.
End NumberOrder.

Module NumberSort := Mergesort.Sort NumberOrder.

Module Form.
Import Frame.

(** [X[col].dtype in [np.int64, np.float64, np.int32, np.float32]]. *)
Definition form_numeric (dt : dtype) : bool :=
  match dt with
  | int64 | float64 | int32 | float32 => true
  | _ => false
  end.

(** The numbers of a column; a missing value is skipped. *)
Definition numbers (vs : list scalar) : list Q :=
  flat_map (fun v => match as_number v with
                     | Some q => [q]
                     | None => []
                     end) vs.

(** [Series.median()]: the middle value of the sorted numbers, or the mean
    of the two middle values; [None] stands for the [nan] of an empty
    column. *)
Definition median (l : list Q) : option Q :=
  let s := NumberSort.sort l in
  let n := length s in
  let h := Nat.div2 n in
  match n with
  | O => None
  | S _ =>
      if Nat.odd n then Some (nth h s 0)
      else Some ((nth (h - 1) s 0 + nth h s 0) / 2)
  end.

(** [Series.unique()]: the distinct values in order of first appearance. *)
Fixpoint unique (l : list string) : list string :=
  match l with
  | [] => []
  | x :: rest => x :: filter (fun y => negb (String.eqb y x)) (unique rest)
  end.

(** The two kinds of input the form draws. *)
Inductive widget : Type :=
| NumberInput (label : string) (value : option Q) (key : string)
| SelectBox (label : string) (options : list string) (index : nat)
            (key : string).

Definition count_le (m : Q) (l : list Q) : nat :=
  length (filter (fun x => Qle_bool x m) l).

Definition count_ge (m : Q) (l : list Q) : nat :=
  length (filter (fun x => Qle_bool m x) l).

(** A median: at least half of the values are not above it and at least
    half are not below it. *)
Definition is_median (m : Q) (l : list Q) : Prop :=
  (length l <= 2 * count_le m l)%nat /\ (length l <= 2 * count_ge m l)%nat.

Section Fields.

Variable float_repr : Q -> string.

(** The body of the loop of lines 272-277 for one column. *)
Definition form_field (c : column) : widget :=
  if form_numeric (col_dtype c)
  then NumberInput (col_name c) (median (numbers (col_values c)))
                   ("inp_" ++ col_name c)
  else SelectBox (col_name c)
                 (unique (map (Target.astype_str float_repr) (col_values c)))
                 0 ("inp_" ++ col_name c).

(** Lines 268-277: [X.iloc[0]] needs a first row; then one input per
    column. *)
Definition build_form (X : DataFrame) : result exn (list widget) :=
  match n_rows X with
  | O => Raise IndexError
  | S _ => Ok (map form_field (df_columns X))
  end.

(** The form as the spec words it: a numeric entry for a column that is
    numeric under the resolver's partition, a closed choice for any
    other. *)
Definition rendered_by_partition (c : column) (w : widget) : Prop :=
  (is_number (col_dtype c) = true ->
   exists value key, w = NumberInput (col_name c) value key) /\
  (is_number (col_dtype c) = false ->
   exists options key, w = SelectBox (col_name c) options 0 key).

End Fields.

(** The storage types on which the form and the resolver decide alike. *)
Definition common_dtype (dt : dtype) : bool :=
  match dt with
  | int64 | float64 | int32 | float32 | object_ | category => true
  | _ => false
  end.

(** A frame with an identifier column too large for [int64]. *)
Definition wide_id_frame : DataFrame :=
  {| n_rows := 2;
     df_columns :=
       [ mkColumn "Student_ID" uint64
                  [SInt 18446744073709551615; SInt 18446744073709551614];
         mkColumn "CGPA" float64 [SFloat (7 # 1); SFloat (17 # 2)] ] |}.

(** A stand-in for the float notation in concrete instances. *)
Definition fraction_repr (q : Q) : string :=
  (NilZero.string_of_int (Z.to_int (Qnum q)) ++ "/"
   ++ NilZero.string_of_uint (Pos.to_uint (Qden q)))%string.

(** Every cell of a numeric column holds a number (no gap is left after
    the sentinel fill). *)
Definition numeric_cells (X : DataFrame) : bool :=
  forallb (fun c => if is_number (col_dtype c)
                    then forallb (fun v => match as_number v with
                                           | Some _ => true
                                           | None => false
                                           end) (col_values c)
                    else true) (df_columns X).

(** The feature table of the sample frame after resolution. *)
Definition sample_features : DataFrame :=
  {| n_rows := 3;
     df_columns :=
       [ mkColumn "Age" int64 [SInt 17; SInt 21; SInt 19];
         mkColumn "CGPA" float64
                  [SFloat (7 # 1); SFloat (-999 # 1); SFloat (17 # 2)];
         mkColumn "Financial_Status" object_
                  [SStr "low"; SInt (-999); SStr "high"] ] |}.

(* ------------------------------------------------------------------ *)

Lemma filter_length_perm {A : Type} (f : A -> bool) l l' :
  Permutation l l' -> length (filter f l) = length (filter f l').
Proof.
  induction 1 as [|x l l' _ IH|x y l|l l' l'' _ IH1 _ IH2]; simpl.
  - reflexivity.
  - destruct (f x); simpl; congruence.
  - destruct (f x), (f y); reflexivity.
  - congruence.
Qed.

Lemma sorted_nth_le (s : list Q) :
  StronglySorted (fun a b => is_true (Qle_bool a b)) s ->
  forall i j, (i <= j)%nat -> (j < length s)%nat -> nth i s 0 <= nth j s 0.
Proof.
  induction 1 as [|a s _ IH Hall]; intros i j Hij Hj; simpl in Hj; [lia|].
  destruct i as [|i], j as [|j]; simpl; try lia.
  - apply Qle_refl.
  - rewrite Forall_forall in Hall. apply Qle_bool_iff, Hall, nth_In. lia.
  - apply IH; lia.
Qed.

Lemma count_prefix (f : Q -> bool) (s : list Q) : forall k,
  (k <= length s)%nat ->
  (forall i, (i < k)%nat -> f (nth i s 0) = true) ->
  (k <= length (filter f s))%nat.
Proof.
  induction s as [|a s IH]; intros [|k] Hk H; simpl in *; try lia.
  rewrite (H 0%nat) by lia. simpl.
  apply le_n_S, IH; [lia|]. intros i Hi. apply (H (S i)). lia.
Qed.

Lemma count_suffix (f : Q -> bool) (s : list Q) : forall k,
  (forall i, (k <= i)%nat -> (i < length s)%nat -> f (nth i s 0) = true) ->
  (length s - k <= length (filter f s))%nat.
Proof.
  induction s as [|a s IH]; intros k H; simpl in *; [lia|].
  destruct k as [|k].
  - rewrite (H 0%nat) by lia. simpl.
    specialize (IH 0%nat). rewrite Nat.sub_0_r in IH.
    apply le_n_S, IH. intros i _ Hi. apply (H (S i)); lia.
  - specialize (IH k).
    assert (length s - k <= length (filter f s))%nat.
    { apply IH. intros i Hk Hi. apply (H (S i)); lia. }
    destruct (f a); simpl; lia.
Qed.

Lemma number_leb_trans : Transitive (fun a b => is_true (NumberOrder.leb a b)).
Proof.
  intros a b c Hab Hbc. unfold NumberOrder.leb, is_true in *.
  rewrite Qle_bool_iff in *. eapply Qle_trans; eassumption.
Qed.

Lemma is_median_perm m l l' :
  Permutation l l' -> is_median m l' -> is_median m l.
Proof.
  intros Hperm. unfold is_median, count_le, count_ge.
  now rewrite !(filter_length_perm _ _ _ Hperm), (Permutation_length Hperm).
Qed.

(** The value [median] returns is a median of the list. *)
Lemma median_is_median (l : list Q) :
  l <> [] -> exists m, median l = Some m /\ is_median m l.
Proof.
  intro Hne.
  pose proof (NumberSort.Permuted_sort l) as Hperm.
  pose proof (NumberSort.StronglySorted_sort l number_leb_trans) as Hsorted.
  pose proof (sorted_nth_le _ Hsorted) as Hnth.
  assert (Hlen : length (NumberSort.sort l) <> 0%nat).
  { rewrite <- (Permutation_length Hperm). now destruct l. }
  unfold median.
  set (s := NumberSort.sort l) in *.
  pose proof (Nat.div2_odd (length s)) as Hdiv.
  set (h := Nat.div2 (length s)) in *.
  destruct (length s) as [|n'] eqn:En; [congruence|]. rewrite <- En in *.
  destruct (Nat.odd (length s)); simpl in Hdiv; eexists;
    (split; [reflexivity|]); apply (is_median_perm _ _ _ Hperm);
    fold s; unfold is_median, count_le, count_ge.
  - split.
    + enough (h + 1 <= length (filter (fun x => Qle_bool x (nth h s 0%Q)) s))%nat
        by lia.
      apply count_prefix; [lia|]. intros i Hi.
      apply Qle_bool_iff, Hnth; lia.
    + enough (length s - h
              <= length (filter (fun x => Qle_bool (nth h s 0%Q) x) s))%nat by lia.
      apply count_suffix. intros i Hi Hi'.
      apply Qle_bool_iff, Hnth; lia.
  - assert (Hab : nth (h - 1) s 0 <= nth h s 0) by (apply Hnth; lia).
    set (a := nth (h - 1) s 0) in *. set (b := nth h s 0) in *.
    assert (Hlo : a <= (a + b) / 2)
      by (apply Qle_shift_div_l; [reflexivity|lra]).
    assert (Hhi : (a + b) / 2 <= b)
      by (apply Qle_shift_div_r; [reflexivity|lra]).
    split.
    + enough (h <= length (filter (fun x => Qle_bool x ((a + b) / 2)) s))%nat
        by lia.
      apply count_prefix; [lia|]. intros i Hi.
      apply Qle_bool_iff. apply Qle_trans with a; [|exact Hlo].
      subst a. apply Hnth; lia.
    + enough (length s - h
              <= length (filter (fun x => Qle_bool ((a + b) / 2) x) s))%nat
        by lia.
      apply count_suffix. intros i Hi Hi'.
      apply Qle_bool_iff. apply Qle_trans with b; [exact Hhi|].
      subst b. apply Hnth; lia.
Qed.

Lemma unique_In l s : In s (unique l) <-> In s l.
Proof.
  induction l as [|x rest IH]; simpl; [tauto|].
  rewrite filter_In, IH, negb_true_iff.
  destruct (String.eqb_spec s x) as [->|Hne]; intuition congruence.
Qed.

Lemma unique_NoDup l : NoDup (unique l).
Proof.
  induction l as [|x rest IH]; simpl; constructor.
  - rewrite filter_In, String.eqb_refl. intros [_ H]. discriminate H.
  - now apply NoDup_filter.
Qed.

Lemma unique_head l : hd_error (unique l) = hd_error l.
Proof. now destruct l. Qed.

Section FormFacts.

Variable float_repr : Q -> string.

Lemma numbers_nonempty vs :
  vs <> [] ->
  forallb (fun v => match as_number v with
                    | Some _ => true
                    | None => false
                    end) vs = true ->
  numbers vs <> [].
Proof.
  destruct vs as [|v vs]; [congruence|]. intros _ H. simpl in *.
  apply andb_true_iff in H as [Hv _].
  destruct (as_number v); [discriminate|discriminate Hv].
Qed.

Lemma form_numeric_is_number dt : form_numeric dt = true -> is_number dt = true.
Proof. destruct dt; simpl; intro H; try reflexivity; discriminate H. Qed.

Lemma common_dtype_agree dt :
  common_dtype dt = true ->
  form_numeric dt = is_number dt /\
  negb (form_numeric dt) = is_object_or_category dt.
Proof. destruct dt; simpl; intro H; try discriminate H; auto. Qed.

Lemma Forall2_map_r {A B : Type} (P : A -> B -> Prop) (f : A -> B) l :
  Forall (fun a => P a (f a)) l -> Forall2 P l (map f l).
Proof. induction 1; simpl; constructor; auto. Qed.

(** C9: on a feature table with a column of unsigned 64-bit integers the
    resolver lists the column as numeric, and the form, whose test names
    four storage types only, draws a closed choice of its values in string
    form for it instead of a numeric entry; the claim asks for the numeric
    entry. *)
Lemma wide_integer_column_is_a_choice :
  exists c fields w,
    nth_error (df_columns wide_id_frame) 0 = Some c /\
    build_form fraction_repr wide_id_frame = Ok fields /\
    nth_error fields 0 = Some w /\
    is_number (col_dtype c) = true /\
    In (col_name c) (numeric_cols wide_id_frame) /\
    w = SelectBox "Student_ID"
                  ["18446744073709551615"; "18446744073709551614"]%string 0
                  "inp_Student_ID" /\
    ~ rendered_by_partition c w.
Proof.
  eexists. eexists. eexists.
  split; [reflexivity|]. split; [reflexivity|]. split; [reflexivity|].
  split; [reflexivity|]. split; [now left|]. split; [reflexivity|].
  intros [H _]. destruct (H eq_refl) as (value & key & Hw). discriminate Hw.
Qed.

(** What the form does for a feature table with at least one row: a
    column whose storage type is one of int64, float64, int32, float32
    gets a numeric entry whose default is the median of the column; every
    other column gets a closed choice among its distinct observed values
    in string form, in order of first appearance, with the first observed
    value as default. *)
Lemma form_fields_by_dtype (X : DataFrame)
        (Hrows : n_rows X <> 0%nat)
        (Hwf : well_formed X)
        (Hcells : numeric_cells X = true) :
  exists fields,
    build_form float_repr X = Ok fields /\
    Forall2
      (fun c w =>
         (form_numeric (col_dtype c) = true ->
          is_number (col_dtype c) = true /\
          exists m,
            w = NumberInput (col_name c) (Some m) ("inp_" ++ col_name c) /\
            median (numbers (col_values c)) = Some m /\
            is_median m (numbers (col_values c))) /\
         (form_numeric (col_dtype c) = false ->
          exists options first rest,
            w = SelectBox (col_name c) options 0 ("inp_" ++ col_name c) /\
            options = unique (map (Target.astype_str float_repr) (col_values c)) /\
            NoDup options /\
            (forall s, In s options <->
                       In s (map (Target.astype_str float_repr) (col_values c))) /\
            col_values c = first :: rest /\
            nth_error options 0 = Some (Target.astype_str float_repr first)) /\
         (common_dtype (col_dtype c) = true ->
          rendered_by_partition c w /\
          (form_numeric (col_dtype c) = false ->
           is_object_or_category (col_dtype c) = true)))
      (df_columns X) fields.
Proof.
  unfold build_form. destruct (n_rows X) as [|n] eqn:En; [congruence|].
  eexists. split; [reflexivity|].
  apply Forall2_map_r. apply Forall_forall. intros c Hc.
  assert (Hvals : col_values c <> []).
  { unfold well_formed in Hwf. rewrite Forall_forall in Hwf.
    specialize (Hwf c Hc). rewrite En in Hwf.
    destruct (col_values c); [discriminate|congruence]. }
  unfold numeric_cells in Hcells. rewrite forallb_forall in Hcells.
  specialize (Hcells c Hc).
  assert (Hnum : form_numeric (col_dtype c) = true ->
          is_number (col_dtype c) = true /\
          exists m,
            form_field float_repr c
            = NumberInput (col_name c) (Some m) ("inp_" ++ col_name c) /\
            median (numbers (col_values c)) = Some m /\
            is_median m (numbers (col_values c))).
  { intro Hf. pose proof (form_numeric_is_number _ Hf) as Hn.
    split; [exact Hn|]. rewrite Hn in Hcells.
    destruct (median_is_median (numbers (col_values c))
                (numbers_nonempty _ Hvals Hcells)) as (m & Hm & Hmed).
    exists m. unfold form_field. rewrite Hf, Hm. auto. }
  assert (Hsel : form_numeric (col_dtype c) = false ->
          exists options first rest,
            form_field float_repr c
            = SelectBox (col_name c) options 0 ("inp_" ++ col_name c) /\
            options = unique (map (Target.astype_str float_repr) (col_values c)) /\
            NoDup options /\
            (forall s, In s options <->
                       In s (map (Target.astype_str float_repr) (col_values c))) /\
            col_values c = first :: rest /\
            nth_error options 0 = Some (Target.astype_str float_repr first)).
  { intro Hf. destruct (col_values c) as [|first rest] eqn:Ev; [congruence|].
    exists (unique (map (Target.astype_str float_repr) (first :: rest))),
      first, rest.
    unfold form_field. rewrite Hf, Ev.
    repeat split; try apply unique_NoDup; try apply unique_In. }
  split; [exact Hnum|]. split; [exact Hsel|].
  intro Hcommon. destruct (common_dtype_agree _ Hcommon) as [Hagree Hcat].
  split; [split|].
  - rewrite <- Hagree. intro Hf. destruct (Hnum Hf) as (_ & m & Hw & _).
    rewrite Hw. eauto.
  - rewrite <- Hagree. intro Hf.
    destruct (Hsel Hf) as (options & first & rest & Hw & _).
    rewrite Hw. eauto.
  - intro Hf. rewrite <- Hcat, Hf. reflexivity.
Qed.

End FormFacts.

Lemma form_fields_by_dtype_witness :
  exists fields,
    build_form fraction_repr sample_features = Ok fields /\
    length fields = 3%nat.
Proof.
  destruct (form_fields_by_dtype fraction_repr sample_features)
    as (fields & Hbuild & Hall).
  - simpl. discriminate.
  - repeat constructor.
  - reflexivity.
  - exists fields. split; [exact Hbuild|].
    apply Forall2_length in Hall. now rewrite <- Hall.
Defined.

Example sample_form :
  build_form fraction_repr sample_features
  = Ok [ NumberInput "Age" (Some (19 # 1)) "inp_Age";
         NumberInput "CGPA" (Some (7 # 1)) "inp_CGPA";
         SelectBox "Financial_Status" ["low"; "-999"; "high"]%string 0
                   "inp_Financial_Status" ].
Proof. reflexivity. Qed.

(** Label and key of an input of the form. *)
Definition widget_label (w : widget) : string :=
  match w with
  | NumberInput label _ _ | SelectBox label _ _ _ => label
  end.

Definition widget_key (w : widget) : string :=
  match w with
  | NumberInput _ _ key | SelectBox _ _ _ key => key
  end.

Section FormKeys.

Variable float_repr : Q -> string.

Lemma form_field_key c :
  widget_key (form_field float_repr c) = ("inp_" ++ col_name c)%string /\
  widget_label (form_field float_repr c) = col_name c.
Proof.
  unfold form_field. now destruct (form_numeric (col_dtype c)).
Qed.

Lemma nodup_map_injective {A B : Type} (f : A -> B) (l : list A) :
  (forall a b, f a = f b -> a = b) -> NoDup l -> NoDup (map f l).
Proof.
  intros Hinj H. induction H as [|x l Hx _ IH]; simpl; constructor;
    [|exact IH].
  intro Hin. apply in_map_iff in Hin as (y & Hy & Hin).
  apply Hinj in Hy. now subst.
Qed.

(** X9: a feature table without rows makes the form fail with
    [IndexError]; otherwise the form has one input per column, labelled by
    the column names in order, and its widget keys are pairwise distinct
    exactly when the column names are. *)
Theorem form_widget_keys (X : DataFrame) :
  (n_rows X = 0%nat -> build_form float_repr X = Raise IndexError) /\
  (n_rows X <> 0%nat ->
   exists fields,
     build_form float_repr X = Ok fields /\
     map widget_label fields = column_names X /\
     map widget_key fields
     = map (fun n => ("inp_" ++ n)%string) (column_names X) /\
     (NoDup (map widget_key fields) <-> NoDup (column_names X))).
Proof.
  unfold build_form. split.
  - now intros ->.
  - intro Hrows. destruct (n_rows X) as [|n]; [congruence|].
    eexists. split; [reflexivity|].
    assert (Hlabels : map widget_label (map (form_field float_repr) (df_columns X))
                      = column_names X).
    { unfold column_names. rewrite map_map. apply map_ext.
      intro c. apply form_field_key. }
    assert (Hkeys : map widget_key (map (form_field float_repr) (df_columns X))
                    = map (fun n => ("inp_" ++ n)%string) (column_names X)).
    { unfold column_names. rewrite !map_map. apply map_ext.
      intro c. apply form_field_key. }
    split; [exact Hlabels|]. split; [exact Hkeys|].
    rewrite Hkeys. split.
    + apply NoDup_map_inv.
    + apply nodup_map_injective. intros a b H. now injection H.
Qed.

End FormKeys.

End Form.
(* ================================================================== *)
(** ** Risk banner (lines 288-295) *)

Module Risk.

(** [st.error] / [st.warning] / [st.success] banners of the prediction
    section. *)
Inductive risk_tier : Set := HighRisk | MediumRisk | LowRisk.

(** [if prob > 0.7: ... elif prob > 0.3: ... else: ...] on binary64
    values; the literals denote the nearest binary64 numbers. *)
Definition risk_banner (prob : float) : risk_tier :=
  if (0.7 <? prob)%float then HighRisk
  else if (0.3 <? prob)%float then MediumRisk
  else LowRisk.

(** [if prob is not None: ...]: no banner without a probability. *)
Definition risk_report (prob : option float) : option risk_tier :=
  option_map risk_banner prob.

Definition sf_low : spec_float := Eval vm_compute in Prim2SF 0.3.
Definition sf_high : spec_float := Eval vm_compute in Prim2SF 0.7.

Lemma sf_low_eq : Prim2SF 0.3 = sf_low.
Proof. vm_compute. reflexivity. Qed.

Lemma sf_high_eq : Prim2SF 0.7 = sf_high.
Proof. vm_compute. reflexivity. Qed.

(** Swapping the arguments of the IEEE comparison flips its result. *)
Lemma SFcompare_swap (a b : spec_float) :
  SFcompare b a = option_map CompOpp (SFcompare a b).
Proof.
  destruct a as [sa|sa| |sa ma ea], b as [sb|sb| |sb mb eb];
    cbn [SFcompare option_map CompOpp];
    try reflexivity;
    try (destruct sa; reflexivity); try (destruct sb; reflexivity);
    try (destruct sa, sb; reflexivity).
  change (IntDef.Z.compare eb ea) with (Z.compare eb ea).
  change (IntDef.Z.compare ea eb) with (Z.compare ea eb).
  change (PosDef.Pos.compare_cont Eq mb ma) with (Pos.compare mb ma).
  change (PosDef.Pos.compare_cont Eq ma mb) with (Pos.compare ma mb).
  rewrite (Z.compare_antisym ea eb), (Pos.compare_antisym ma mb).
  destruct sa, sb; cbn [option_map CompOpp]; try reflexivity;
    destruct (Z.compare ea eb); cbn [CompOpp]; try reflexivity.
  all: try (now rewrite CompOpp_involutive).
Qed.

Lemma leb_not_gt (x y : float) :
  (x <=? y)%float = true -> (y <? x)%float = false.
Proof.
  rewrite leb_spec, ltb_spec. unfold SFleb, SFltb.
  rewrite (SFcompare_swap (Prim2SF x) (Prim2SF y)).
  destruct (SFcompare (Prim2SF x) (Prim2SF y)) as [[ | | ]|];
    cbn [option_map CompOpp]; congruence.
Qed.

(** A value at or below the lower threshold is not above the upper one. *)
Lemma below_low_not_high (p : float) :
  (p <=? 0.3)%float = true -> (0.7 <? p)%float = false.
Proof.
  rewrite leb_spec, ltb_spec. unfold SFleb, SFltb.
  rewrite (SFcompare_swap (Prim2SF p) (Prim2SF 0.7)).
  rewrite sf_low_eq, sf_high_eq. unfold sf_low, sf_high.
  destruct (Prim2SF p) as [s|s| |s m e]; cbn [SFcompare option_map CompOpp];
    try (destruct s; cbn [option_map CompOpp]; congruence); try congruence.
  destruct s; cbn [option_map CompOpp]; try congruence.
  change (IntDef.Z.compare e ?k) with (Z.compare e k).
  destruct (Z.compare_spec e (-54)); destruct (Z.compare_spec e (-53));
    cbn [option_map CompOpp]; try congruence; try lia.
Qed.

(** C1: the tier depends on the probability alone: p > 0.7 gives the high
    tier, 0.3 < p <= 0.7 the medium tier, p <= 0.3 the low tier; the
    boundary values 0.7 and 0.3 give medium and low, and 0.9, 0.5, 0.1
    give high, medium, low. *)
Theorem risk_banner_tiers :
  (forall p : float,
      ((0.7 <? p)%float = true -> risk_banner p = HighRisk) /\
      ((0.3 <? p)%float = true -> (p <=? 0.7)%float = true ->
       risk_banner p = MediumRisk) /\
      ((p <=? 0.3)%float = true -> risk_banner p = LowRisk)) /\
  risk_banner 0.7 = MediumRisk /\ risk_banner 0.3 = LowRisk /\
  risk_banner 0.9 = HighRisk /\ risk_banner 0.5 = MediumRisk /\
  risk_banner 0.1 = LowRisk.
Proof.
  split; [intro p; repeat split | repeat split; vm_compute; reflexivity].
  - intro H. unfold risk_banner. now rewrite H.
  - intros Hlo Hhi. unfold risk_banner.
    rewrite (leb_not_gt _ _ Hhi), Hlo. reflexivity.
  - intro H. unfold risk_banner.
    rewrite (below_low_not_high _ H), (leb_not_gt _ _ H). reflexivity.
Qed.

(** Severity of a tier. *)
Definition tier_rank (t : risk_tier) : nat :=
  match t with
  | LowRisk => 0
  | MediumRisk => 1
  | HighRisk => 2
  end.

(** Below a positive finite number, then not above: the strict order
    composes with the weak one. *)
Lemma SFcompare_lt_le (ma : positive) (ea : Z) (b c : spec_float) :
  SFcompare (S754_finite false ma ea) b = Some Lt ->
  SFcompare b c = Some Lt \/ SFcompare b c = Some Eq ->
  SFcompare (S754_finite false ma ea) c = Some Lt.
Proof.
  intros H1 H2.
  destruct b as [sb|sb| |sb mb eb]; cbn [SFcompare] in H1; try discriminate.
  - destruct sb; try discriminate.
    destruct c as [sc|sc| |sc mc ec]; cbn [SFcompare] in H2 |- *;
      try (destruct H2; discriminate);
      destruct sc; try reflexivity; destruct H2; discriminate.
  - destruct sb; try discriminate.
    destruct c as [sc|sc| |sc mc ec]; cbn [SFcompare] in H2 |- *;
      try (destruct H2; discriminate).
    + destruct sc; try reflexivity; destruct H2; discriminate.
    + destruct sc; [destruct H2; discriminate|].
      change (IntDef.Z.compare ?x ?y) with (Z.compare x y) in *.
      change (PosDef.Pos.compare_cont Eq ?x ?y) with (Pos.compare x y) in *.
      destruct (Z.compare_spec ea eb); try discriminate;
        destruct (Z.compare_spec eb ec);
        try (destruct H2; discriminate);
        destruct (Z.compare_spec ea ec); try lia; try reflexivity;
        destruct (Pos.compare_spec ma mb); try discriminate;
        destruct (Pos.compare_spec mb mc);
        try (destruct H2; discriminate);
        destruct (Pos.compare_spec ma mc); try lia; reflexivity.
Qed.

Lemma above_threshold_mono (thr p q : float) (m : positive) (e : Z) :
  Prim2SF thr = S754_finite false m e ->
  (thr <? p)%float = true -> (p <=? q)%float = true ->
  (thr <? q)%float = true.
Proof.
  rewrite !ltb_spec, leb_spec. unfold SFltb, SFleb. intros -> H1 H2.
  rewrite (SFcompare_lt_le m e (Prim2SF p) (Prim2SF q)); [reflexivity| |].
  - destruct (SFcompare (S754_finite false m e) (Prim2SF p)) as [[| |]|];
      congruence.
  - destruct (SFcompare (Prim2SF p) (Prim2SF q)) as [[| |]|];
      try discriminate; auto.
Qed.

Lemma nan_spec (p : float) : is_nan p = true -> Prim2SF p = S754_nan.
Proof.
  unfold is_nan. rewrite eqb_spec. unfold SFeqb.
  destruct (Prim2SF p) as [s|s| |s m e]; cbn [SFcompare]; try reflexivity;
    try (destruct s; discriminate).
  change (IntDef.Z.compare e e) with (Z.compare e e).
  rewrite Z.compare_refl, Pcompare_refl. destruct s; discriminate.
Qed.

Lemma nan_not_above (thr p : float) :
  is_nan p = true -> (thr <? p)%float = false.
Proof.
  intro H. rewrite ltb_spec, (nan_spec p H). unfold SFltb.
  now destruct (Prim2SF thr) as [s|s| |s m e].
Qed.

(** X13: the tier never decreases when the probability grows, and a
    probability that is not a number falls through both comparisons to the
    low tier. *)
Theorem risk_banner_monotone :
  (forall p q : float,
      (p <=? q)%float = true ->
      (tier_rank (risk_banner p) <= tier_rank (risk_banner q))%nat) /\
  (forall p : float, is_nan p = true -> risk_banner p = LowRisk).
Proof.
  split.
  - intros p q Hpq. unfold risk_banner.
    destruct (0.7 <? p)%float eqn:Hp7.
    + rewrite (above_threshold_mono 0.7 p q _ _ sf_high_eq Hp7 Hpq).
      apply Nat.le_refl.
    + destruct (0.3 <? p)%float eqn:Hp3.
      * rewrite (above_threshold_mono 0.3 p q _ _ sf_low_eq Hp3 Hpq).
        destruct (0.7 <? q)%float; simpl; lia.
      * destruct (0.7 <? q)%float; [simpl; lia|].
        destruct (0.3 <? q)%float; simpl; lia.
  - intros p Hnan. unfold risk_banner.
    now rewrite !(nan_not_above _ p Hnan).
Qed.

End Risk.

(* ================================================================== *)
(** ** Single prediction (lines 264-295) *)

Module Predict.
Import Training.

(** What the section reports for one submitted record. *)
Record prediction : Type := mkPrediction {
  predicted_class : Z;
  probability : option float;
  banner : option Risk.risk_tier
}.

(** A learner with two classes whose probability call works, one trained
    on a single class, one without the call and one whose [predict]
    fails. *)
Definition sample_proba (pipe : algo)
  : option (unit -> result exn (list float)) :=
  match pipe with
  | LogisticRegression => Some (fun _ => Ok [0.25%float; 0.75%float])
  | DecisionTree => Some (fun _ => Ok [1%float])
  | SVM => Some (fun _ => Raise (LibraryError "predict_proba is not available"))
  | RandomForest => Some (fun _ => Ok [0.5%float; 0.5%float])
  | _ => None
  end.

Definition sample_predict_one (pipe : algo) (_ : unit) : result exn Z :=
  match pipe with
  | RandomForest => Raise (ValueError "could not convert string to float")
  | LogisticRegression => Ok 1%Z
  | _ => Ok 0%Z
  end.

Definition sample_models : dict algo :=
  [(LogisticRegression, LogisticRegression); (RandomForest, RandomForest);
   (DecisionTree, DecisionTree); (SVM, SVM); (KNN, KNN)].

Section Submit.

(** Fitted pipelines and the one-row frame built from the form. *)
Variables pipeline row : Type.

(** [model_pipe.predict_proba], when the pipeline has the attribute: the
    probabilities of the single input row (element [0] of the result). *)
Variable predict_proba : pipeline -> option (row -> result exn (list float)).

(** [model_pipe.predict(input_df)[0]]. *)
Variable predict_one : pipeline -> row -> result exn Z.

(** Lines 282-285: the probability of the class at position 1, or [None]
    when the call is missing or anything in it raises (an index error
    included). *)
Definition probability_of (pipe : pipeline) (input : row) : option float :=
  match predict_proba pipe with
  | None => None
  | Some call =>
      match call input with
      | Raise _ => None
      | Ok probs => nth_error probs 1
      end
  end.

(** Lines 279-295 for a submitted form: [chosen] is the value of the
    model selectbox, a key of the dictionary or [None]. *)
Definition submit (models : dict pipeline) (chosen : option algo)
           (input : row) : result exn prediction :=
  match chosen with
  | None => Raise (KeyError "None")
  | Some name =>
      match dict_get name models with
      | None => Raise (KeyError (algo_name name))
      | Some pipe =>
          let prob := probability_of pipe input in
          pred <- predict_one pipe input ;;
          Ok {| predicted_class := pred;
                probability := prob;
                banner := Risk.risk_report prob |}
      end
  end.

(** The prediction section: without a ['trained_models'] key only the
    notice is shown ([None]); otherwise the form is submitted. *)
Definition prediction_section (models : option (dict pipeline))
           (chosen : option algo) (input : row)
  : result exn (option prediction) :=
  match models with
  | None => Ok None
  | Some ms => p <- submit ms chosen input ;; Ok (Some p)
  end.

(* ------------------------------------------------------------------ *)

(** X10: for a stored model whose [predict] returns, the class is
    reported whatever the probability call does; the probability is left
    out exactly when the pipeline has no such call, the call raises, or
    its row has fewer than two entries; the risk banner is shown exactly
    when there is a probability, and it is the tier of that probability.
    When [predict] raises, the submission raises, with or without a
    probability. *)
Theorem prediction_degrades_gracefully
        (models : dict pipeline) (name : algo) (pipe : pipeline) (input : row)
        (Hstored : dict_get name models = Some pipe) :
  (forall c, predict_one pipe input = Ok c ->
     exists prob,
       submit models (Some name) input
       = Ok {| predicted_class := c; probability := prob;
               banner := option_map Risk.risk_banner prob |} /\
       (prob = None <->
        predict_proba pipe = None \/
        (exists call e, predict_proba pipe = Some call /\ call input = Raise e) \/
        (exists call probs, predict_proba pipe = Some call /\
                            call input = Ok probs /\ (length probs < 2)%nat)) /\
       (forall p, prob = Some p ->
          exists call probs, predict_proba pipe = Some call /\
                             call input = Ok probs /\
                             nth_error probs 1 = Some p)) /\
  (forall e, predict_one pipe input = Raise e ->
     submit models (Some name) input = Raise e).
Proof.
  unfold submit. rewrite Hstored. split.
  - intros c Hc. rewrite Hc. simpl.
    exists (probability_of pipe input). split; [reflexivity|].
    unfold probability_of.
    destruct (predict_proba pipe) as [call|] eqn:Ecall.
    + destruct (call input) as [probs|e] eqn:Erun.
      * split.
        -- rewrite nth_error_None. split.
           ++ intro Hlen. right. right. exists call, probs.
              repeat split; try assumption. lia.
           ++ intros [H|[(call' & e & H & Hr)|(call' & probs' & H & Hr & Hlen)]];
                try discriminate.
              ** injection H as <-. congruence.
              ** injection H as <-. rewrite Erun in Hr.
                 injection Hr as <-. lia.
        -- intros p Hp. exists call, probs. auto.
      * split; [|discriminate]. split; [|reflexivity].
        intros _. right. left. exists call, e. auto.
    + split; [|discriminate]. split; [|reflexivity]. intros _. now left.
  - intros e He. now rewrite He.
Qed.

(** Without the dictionary only the notice is shown; with an empty
    dictionary, or a choice that is no key, a submission raises
    [KeyError]. *)
Lemma submit_unknown_model (chosen : option algo) (input : row) :
  (exists key, prediction_section (Some []) chosen input
               = Raise (KeyError key)) /\
  prediction_section None chosen input = Ok None /\
  (forall models name,
     ~ In name (keys models) ->
     prediction_section (Some models) (Some name) input
     = Raise (KeyError (algo_name name))).
Proof.
  split; [|split].
  - unfold prediction_section, submit. destruct chosen as [name|]; simpl; eauto.
  - reflexivity.
  - intros models name Hnot. unfold prediction_section, submit.
    assert (Hget : dict_get name models = None).
    { induction models as [|[k v] rest IH]; simpl in *; [reflexivity|].
      destruct (algo_eqb k name) eqn:E.
      - apply algo_eqb_eq in E. tauto.
      - apply IH. tauto. }
    now rewrite Hget.
Qed.

End Submit.

Lemma prediction_degrades_gracefully_witness :
  submit algo unit sample_proba sample_predict_one sample_models
         (Some DecisionTree) tt
  = Ok {| predicted_class := 0; probability := None; banner := None |}
  /\
  submit algo unit sample_proba sample_predict_one sample_models
         (Some RandomForest) tt
  = Raise (ValueError "could not convert string to float").
Proof.
  split.
  - destruct (prediction_degrades_gracefully algo unit sample_proba
                sample_predict_one sample_models DecisionTree DecisionTree tt
                eq_refl) as [Hok _].
    destruct (Hok 0%Z eq_refl) as (prob & Hsub & Hnone & _).
    assert (Hprob : prob = None).
    { apply Hnone. right. right. eexists. eexists.
      split; [reflexivity|]. split; [reflexivity|]. simpl. lia. }
    rewrite Hprob in Hsub. exact Hsub.
  - destruct (prediction_degrades_gracefully algo unit sample_proba
                sample_predict_one sample_models RandomForest RandomForest tt
                eq_refl) as [_ Hraise].
    apply Hraise. reflexivity.
Defined.

Section AfterRun.

Variables pipeline preds_t row : Type.
Variable fit : algo -> result exn pipeline.
Variable predict : pipeline -> result exn preds_t.
Variable accuracy_score : preds_t -> Q.
Variable model_obj : pipeline -> Importance.learner.
Variables numeric_cols categorical_cols X_columns : list string.
Variable get_feature_names_out : pipeline -> result exn (list string).
Variable str_exn : exn -> string.
Variable predict_proba : pipeline -> option (row -> result exn (list float)).
Variable predict_one : pipeline -> row -> result exn Z.

(** X11: after a run in which every selected algorithm failed, the
    dictionary of trained models exists and is empty, so the prediction
    section is drawn instead of the train-first notice and any submission
    raises [KeyError]. *)
Theorem predict_after_failed_run
        (algos : list algo) (chosen : option algo) (input : row)
        (Hall : forall a, In a algos ->
                  exists e, fit a = Raise e \/
                            exists pipe, fit a = Ok pipe /\ predict pipe = Raise e) :
  ss_trained_models
    (press_train pipeline preds_t fit predict accuracy_score model_obj
                 numeric_cols categorical_cols X_columns
                 get_feature_names_out str_exn algos) = Some [] /\
  exists key,
    prediction_section pipeline row predict_proba predict_one
      (ss_trained_models
         (press_train pipeline preds_t fit predict accuracy_score model_obj
                      numeric_cols categorical_cols X_columns
                      get_feature_names_out str_exn algos))
      chosen input
    = Raise (KeyError key).
Proof.
  destruct (run_of_failures_is_empty pipeline preds_t fit predict
              accuracy_score model_obj numeric_cols categorical_cols
              X_columns get_feature_names_out str_exn algos) as [Hmodels _].
  { intros a Ha. destruct (Hall a Ha) as [e He].
    apply failure_of_calls, failure_outcome in He.
    unfold trains. now rewrite He. }
  unfold press_train. simpl. rewrite Hmodels. split; [reflexivity|].
  unfold prediction_section, submit. destruct chosen as [name|]; simpl; eauto.
Qed.

End AfterRun.

Lemma predict_after_failed_run_witness :
  exists key,
    prediction_section algo unit sample_proba sample_predict_one
      (ss_trained_models (demo_session [SVM; KNN])) (Some SVM) tt
    = Raise (KeyError key).
Proof.
  destruct (predict_after_failed_run algo (list Z) unit demo_fit demo_predict
              demo_accuracy demo_model demo_columns [] demo_columns
              (fun _ => Ok []) demo_str_exn sample_proba sample_predict_one
              [SVM; KNN] (Some SVM) tt) as [_ Hraise].
  - intros a [<-|[<-|[]]].
    + exists (LibraryError "Input X contains NaN."). left. reflexivity.
    + exists (ValueError "Expected n_neighbors <= n_samples_fit").
      right. exists KNN. split; reflexivity.
  - exact Hraise.
Defined.

Example sample_submission :
  submit algo unit sample_proba sample_predict_one sample_models
         (Some LogisticRegression) tt
  = Ok {| predicted_class := 1; probability := Some 0.75%float;
          banner := Some Risk.HighRisk |}.
Proof. reflexivity. Qed.

End Predict.
